(** * Approx Sandbox: the physics core of [src/main/main.js]

    A shallow embedding of the classes [Vec3], the shape classes, [RigidBody]
    and [PhysicsWorld], and of the scene save / import handlers, followed by
    the properties of the specification that are settled against them.

    Conventions of the embedding.

    - A JavaScript number is a real number ([R]): the arithmetic of the
      source is read as exact arithmetic.  Rounding, NaN and the infinities
      of IEEE doubles are not modelled; in the concrete runs below, every
      number that enters a computation is a dyadic rational on which double
      arithmetic is exact as well.  The only division whose divisor can be
      zero is the one of the impulse response for two immovable bodies:
      the source then computes NaN where the quotient of [R] is 0, so the
      theorems that depend on a quotient assume a non-zero divisor.  The
      division of [normalize] is guarded; its embedding evaluates it with
      a partial reciprocal, which shows that the guard is what keeps it
      from a zero divisor.
    - [RigidBody] objects are mutable and shared between [world.bodies] and
      the broadphase grid: they live in an object store ([Heap], a list
      indexed by reference) and both containers hold references.
    - A [Vec3] object has one holder only (the [RigidBody] constructor
      copies its position argument, every [Vec3] method returns a new
      object), so a vector is a plain value and the in-place writes
      [b.position.y = ...] of the boundary step are updates of the body
      that holds the vector.
    - The rendering proxy ([mesh], a three.js object) is reduced to what the
      core and the scene handlers read and write of it. *)

From stdpp Require Import base decidable option list strings.
From Stdlib Require Import ZArith Reals Lra Lia.

#[local] Open Scope R_scope.

(** ** Decisions on numbers: [===], [<], [>] *)

#[global] Instance R_eq_dec : EqDecision R := Req_dec_T.
#[global] Instance Rlt_decision : RelDecision Rlt := Rlt_dec.
#[global] Instance Rgt_decision : RelDecision Rgt := Rgt_dec.

(** ** class Vec3 *)

Module Vec3.

Record t : Type := new { x : R; y : R; z : R }.

Definition add (this v : t) : t := new (x this + x v) (y this + y v) (z this + z v).
Definition sub (this v : t) : t := new (x this - x v) (y this - y v) (z this - z v).
Definition mul (this : t) (s : R) : t := new (x this * s) (y this * s) (z this * s).
Definition dot (this v : t) : R := x this * x v + y this * y v + z this * z v.
Definition length (this : t) : R :=
  sqrt (x this * x this + y this * y this + z this * z this).
(** [1 / l] as JavaScript evaluates it: a number unless [l] is 0.  There
    the source gets [Infinity], whose products in [mul] are infinite or
    NaN; [R] has no such values (its [1 / 0] is 0), so the reciprocal is
    [None] at 0. *)
Definition reciprocal (l : R) : option R :=
  if decide (l = 0) then None else Some (1 / l).

(** The body of [normalize()], its division checked: [None] stands for a
    vector with non-finite components.  [new Vec3()] has the default
    components [0, 0, 0]. *)
Definition normalize_checked (this : t) : option t :=
  let l := length this in
  if decide (l = 0) then Some (new 0 0 0) else mul this <$> reciprocal l.

(** [normalize()] as a function into the vectors of the model.  The guard
    [l === 0] leaves no input on which the reciprocal has no value, so the
    second case is never taken. *)
Definition normalize (this : t) : t :=
  match normalize_checked this with
  | Some v => v
  | None => new 0 0 0
  end.
Definition copy (this : t) : t := new (x this) (y this) (z this).
Definition zero : t := new 0 0 0.

(** Component access by axis name, for [b.position[axis]]. *)
Inductive axis : Set := X | Y | Z.

Definition get (a : axis) (v : t) : R :=
  match a with X => x v | Y => y v | Z => z v end.

Definition put (a : axis) (r : R) (v : t) : t :=
  match a with
  | X => new r (y v) (z v)
  | Y => new (x v) r (z v)
  | Z => new (x v) (y v) r
  end.

End Vec3.

(** ** class Quaternion (a placeholder in the source) *)

Record Quaternion : Type := mkQuaternion { qx : R; qy : R; qz : R; qw : R }.

(** ** Shapes *)

Inductive SHAPE_TYPE : Set := SPHERE | BOX | CYLINDER | CUSTOM.

(** The numbers of the [SHAPE_TYPE] table. *)
Definition type_code (t : SHAPE_TYPE) : Z :=
  match t with SPHERE => 0 | BOX => 1 | CYLINDER => 2 | CUSTOM => 3 end%Z.

(** One constructor per shape class; each carries the fields its class
    constructor assigns besides [type]. *)
Inductive Shape : Type :=
| SphereShape (radius : R)
| BoxShape (size : R)
| CylinderShape (radius height : R)
| CompoundShape (shapes : list CompoundPart)
with CompoundPart : Type :=
| mkPart (shape : Shape) (offset : Vec3.t).

Definition shape_type (s : Shape) : SHAPE_TYPE :=
  match s with
  | SphereShape _ => SPHERE
  | BoxShape _ => BOX
  | CylinderShape _ _ => CYLINDER
  | CompoundShape _ => CUSTOM
  end.

(** How a call can complete: normally with a value, or by a thrown error.
    The only error the modelled code can raise is the [TypeError] of reading
    a property of [undefined]; no constructor contains a [throw]. *)
Inductive JsError : Set := TypeError.

Inductive Completion (A : Type) : Type :=
| Normal (a : A)
| Throw (e : JsError).
Arguments Normal {A} a.
Arguments Throw {A} e.

(** [new SphereShape(radius)], [new BoxShape(size)] and
    [new CylinderShape(radius, height)] as calls. *)
Definition new_SphereShape (radius : R) : Completion Shape :=
  Normal (SphereShape radius).
Definition new_BoxShape (size : R) : Completion Shape :=
  Normal (BoxShape size).
Definition new_CylinderShape (radius height : R) : Completion Shape :=
  Normal (CylinderShape radius height).

(** ** The rendering proxy *)

(** What the core and the scene handlers touch of a three.js mesh: its
    position, the [rotateX/Y/Z] calls it received (oldest first) and the
    colour of its material. *)
Record Mesh : Type := mkMesh {
  mesh_position : Vec3.t;
  mesh_rotations : list (Vec3.axis * R);
  mesh_color : Z
}.

(** ** class RigidBody *)

Module RigidBody.

Record t : Type := mk {
  position : Vec3.t;
  velocity : Vec3.t;
  force : Vec3.t;
  shape : Shape;
  mass : R;
  invMass : R;
  mesh : option Mesh;
  restitution : R;
  friction : R;
  angularVelocity : Vec3.t;
  orientation : Quaternion;
  torque : Vec3.t;
  inertia : R;
  invInertia : R
}.

(** Field assignments. *)
Definition set_position (v : Vec3.t) (b : t) : t :=
  mk v (velocity b) (force b) (shape b) (mass b) (invMass b) (mesh b)
     (restitution b) (friction b) (angularVelocity b) (orientation b)
     (torque b) (inertia b) (invInertia b).
Definition set_velocity (v : Vec3.t) (b : t) : t :=
  mk (position b) v (force b) (shape b) (mass b) (invMass b) (mesh b)
     (restitution b) (friction b) (angularVelocity b) (orientation b)
     (torque b) (inertia b) (invInertia b).
Definition set_force (v : Vec3.t) (b : t) : t :=
  mk (position b) (velocity b) v (shape b) (mass b) (invMass b) (mesh b)
     (restitution b) (friction b) (angularVelocity b) (orientation b)
     (torque b) (inertia b) (invInertia b).
Definition set_mesh (m : option Mesh) (b : t) : t :=
  mk (position b) (velocity b) (force b) (shape b) (mass b) (invMass b) m
     (restitution b) (friction b) (angularVelocity b) (orientation b)
     (torque b) (inertia b) (invInertia b).
Definition set_restitution (r : R) (b : t) : t :=
  mk (position b) (velocity b) (force b) (shape b) (mass b) (invMass b)
     (mesh b) r (friction b) (angularVelocity b) (orientation b)
     (torque b) (inertia b) (invInertia b).
Definition set_friction (r : R) (b : t) : t :=
  mk (position b) (velocity b) (force b) (shape b) (mass b) (invMass b)
     (mesh b) (restitution b) r (angularVelocity b) (orientation b)
     (torque b) (inertia b) (invInertia b).
Definition set_angularVelocity (v : Vec3.t) (b : t) : t :=
  mk (position b) (velocity b) (force b) (shape b) (mass b) (invMass b)
     (mesh b) (restitution b) (friction b) v (orientation b)
     (torque b) (inertia b) (invInertia b).
Definition set_torque (v : Vec3.t) (b : t) : t :=
  mk (position b) (velocity b) (force b) (shape b) (mass b) (invMass b)
     (mesh b) (restitution b) (friction b) (angularVelocity b) (orientation b)
     v (inertia b) (invInertia b).

(** [constructor(position, shape, mass, mesh)] *)
Definition constructor (position0 : Vec3.t) (shape0 : Shape) (mass0 : R)
    (mesh0 : option Mesh) : t :=
  let inertia0 :=
    match shape0 with
    | SphereShape radius => (2 / 5) * mass0 * radius ^ 2
    | CylinderShape radius _ => (1 / 2) * mass0 * radius ^ 2
    | _ => 1
    end in
  {| position := Vec3.copy position0;
     velocity := Vec3.zero;
     force := Vec3.zero;
     shape := shape0;
     mass := mass0;
     invMass := if decide (mass0 > 0) then 1 / mass0 else 0;
     mesh := mesh0;
     restitution := 35 / 100;
     friction := 3 / 10;
     angularVelocity := Vec3.zero;
     orientation := mkQuaternion 0 0 0 1;
     torque := Vec3.zero;
     inertia := inertia0;
     invInertia := if decide (inertia0 > 0) then 1 / inertia0 else 0 |}.

Definition applyForce (f : Vec3.t) (this : t) : t :=
  set_force (Vec3.add (force this) f) this.

Definition applyTorque (tq : Vec3.t) (this : t) : t :=
  set_torque (Vec3.add (torque this) tq) this.

(** The [if (this.mesh) { ... }] block of [integrate]. *)
Definition sync_mesh (dt : R) (this : t) : t :=
  match mesh this with
  | None => this
  | Some m =>
      let p := position this in
      let w := angularVelocity this in
      let moved := Vec3.new (Vec3.x p) (Vec3.y p) (Vec3.z p) in
      let rots :=
        if decide (Vec3.length w > 1 / 10000)
        then mesh_rotations m ++
             [(Vec3.X, Vec3.x w * dt); (Vec3.Y, Vec3.y w * dt); (Vec3.Z, Vec3.z w * dt)]
        else mesh_rotations m in
      set_mesh (Some (mkMesh moved rots (mesh_color m))) this
  end.

Definition integrate (dt : R) (this : t) : t :=
  if decide (invMass this = 0) then this
  else
    let this := set_velocity
      (Vec3.add (velocity this) (Vec3.mul (force this) (dt * invMass this))) this in
    let this := set_position
      (Vec3.add (position this) (Vec3.mul (velocity this) dt)) this in
    let this := set_angularVelocity
      (Vec3.add (angularVelocity this) (Vec3.mul (torque this) (dt * invInertia this))) this in
    let this := set_torque Vec3.zero this in
    let this := sync_mesh dt this in
    set_force Vec3.zero this.

End RigidBody.

(** ** The object store *)

(** A reference to a [RigidBody] object is its index in the store. *)
Abbreviation ref := nat (only parsing).
Abbreviation Heap := (list RigidBody.t).

(** ** class PhysicsWorld *)

Record Bounds : Type := mkBounds { bx : R; by_ : R; bz : R }.

(** [this.bounds[axis]] *)
Definition bound (a : Vec3.axis) (bs : Bounds) : R :=
  match a with Vec3.X => bx bs | Vec3.Y => by_ bs | Vec3.Z => bz bs end.

(** A broadphase cell key: the three floors that the template string
    [`${floor x}:${floor y}:${floor z}`] joins. *)
Abbreviation Key := (Z * Z * Z)%type.

Definition cell_key (p : Vec3.t) : Key :=
  (Zfloor (Vec3.x p), Zfloor (Vec3.y p), Zfloor (Vec3.z p)).

(** The grid object: its keys in insertion order (the order in which
    [for (const cell in grid)] visits string keys), each with its array. *)
Abbreviation Grid := (list (Key * list ref)).

(** [if (!grid[key]) grid[key] = []; grid[key].push(b)] *)
Fixpoint grid_push (key : Key) (b : ref) (grid : Grid) : Grid :=
  match grid with
  | [] => [(key, [b])]
  | (k, cellBodies) :: rest =>
      if decide (k = key) then (k, cellBodies ++ [b]) :: rest
      else (k, cellBodies) :: grid_push key b rest
  end.

(** [grid[key]], the empty list standing for [undefined]. *)
Fixpoint grid_cell (key : Key) (grid : Grid) : list ref :=
  match grid with
  | [] => []
  | (k, cellBodies) :: rest =>
      if decide (k = key) then cellBodies else grid_cell key rest
  end.

(** [boxCollides(a, b)]; a [size] read off a shape that is not a box is
    [undefined], which makes every comparison of the source false. *)
Definition boxCollides (a b : RigidBody.t) : bool :=
  match RigidBody.shape a, RigidBody.shape b with
  | BoxShape sa, BoxShape sb =>
      let pa := RigidBody.position a in
      let pb := RigidBody.position b in
      bool_decide (Rabs (Vec3.x pa - Vec3.x pb) < (sa + sb) / 2) &&
      bool_decide (Rabs (Vec3.y pa - Vec3.y pb) < (sa + sb) / 2) &&
      bool_decide (Rabs (Vec3.z pa - Vec3.z pb) < (sa + sb) / 2)
  | _, _ => false
  end.

(** [cylinderCollides(a, b)] *)
Definition cylinderCollides (a b : RigidBody.t) : bool :=
  match RigidBody.shape a, RigidBody.shape b with
  | CylinderShape ra ha, CylinderShape rb hb =>
      let pa := RigidBody.position a in
      let pb := RigidBody.position b in
      let dx := Vec3.x pa - Vec3.x pb in
      let dz := Vec3.z pa - Vec3.z pb in
      let dist := sqrt (dx * dx + dz * dz) in
      let minDist := ra + rb in
      let yOverlap := bool_decide (Rabs (Vec3.y pa - Vec3.y pb) < (ha + hb) / 2) in
      bool_decide (dist < minDist) && yOverlap
  | _, _ => false
  end.

Module PhysicsWorld.

Record t : Type := mk {
  bodies : list ref;
  gravity : Vec3.t;
  bounds : Bounds;
  collisionCount : Z
}.

Definition constructor : t :=
  mk [] (Vec3.new 0 (-10) 0) (mkBounds 20 20 20) 0%Z.

Definition set_collisionCount (n : Z) (this : t) : t :=
  mk (bodies this) (gravity this) (bounds this) n.

Definition addBody (b : ref) (this : t) : t :=
  mk (bodies this ++ [b]) (gravity this) (bounds this) (collisionCount this).

(** [indexOf] finds the first occurrence, [splice(i, 1)] removes it. *)
Fixpoint remove_first (b : ref) (l : list ref) : list ref :=
  match l with
  | [] => []
  | r :: rest => if decide (r = b) then rest else r :: remove_first b rest
  end.

Definition removeBody (b : ref) (this : t) : t :=
  mk (remove_first b (bodies this)) (gravity this) (bounds this) (collisionCount this).

(** The program state [update] runs in: the store of body objects and the
    world object. *)
Record state : Type := mkState { heap : Heap; world : t }.

(** *** Broadphase: the first loop of [update] *)

Definition broadphase (h : Heap) (bs : list ref) : Grid :=
  fold_left
    (fun grid b =>
       match h !! b with
       | Some body => grid_push (cell_key (RigidBody.position body)) b grid
       | None => grid
       end)
    bs [].

(** *** Gravity and integration: the second loop *)

Definition apply_and_integrate (g : Vec3.t) (dt : R) (b : RigidBody.t) : RigidBody.t :=
  RigidBody.integrate dt (RigidBody.applyForce (Vec3.mul g (RigidBody.mass b)) b).

(** [for (const b of this.bodies) { ... b ... }] with a body that mutates
    only the object [b]. *)
Definition for_bodies (f : RigidBody.t -> RigidBody.t) (bs : list ref) (h : Heap) : Heap :=
  fold_left (fun h b => alter f b h) bs h.

(** *** Ground and bounds: the third loop *)

Definition halfSize (s : Shape) : R :=
  match s with
  | SphereShape radius => radius
  | BoxShape size => size / 2
  | CylinderShape _ height => height / 2
  | CompoundShape _ => 0
  end.

(** [b.position[axis] = r] and [b.velocity[axis] = r]: the vector object is
    written in place. *)
Definition set_pos (a : Vec3.axis) (r : R) (b : RigidBody.t) : RigidBody.t :=
  RigidBody.set_position (Vec3.put a r (RigidBody.position b)) b.
Definition set_vel (a : Vec3.axis) (r : R) (b : RigidBody.t) : RigidBody.t :=
  RigidBody.set_velocity (Vec3.put a r (RigidBody.velocity b)) b.
Definition pos (a : Vec3.axis) (b : RigidBody.t) : R := Vec3.get a (RigidBody.position b).
Definition vel (a : Vec3.axis) (b : RigidBody.t) : R := Vec3.get a (RigidBody.velocity b).

Definition ground (hs : R) (b : RigidBody.t) : RigidBody.t :=
  if decide (pos Vec3.Y b < hs) then
    let b := set_pos Vec3.Y hs b in
    let b := set_vel Vec3.Y (- vel Vec3.Y b * RigidBody.restitution b) b in
    let b := set_vel Vec3.X (vel Vec3.X b * (1 - RigidBody.friction b)) b in
    set_vel Vec3.Z (vel Vec3.Z b * (1 - RigidBody.friction b)) b
  else b.

(** One round of [for (const axis of ['x','z'])]. *)
Definition wall (bs : Bounds) (hs : R) (axis : Vec3.axis) (b : RigidBody.t) : RigidBody.t :=
  let b :=
    if decide (pos axis b < - bound axis bs / 2 + hs) then
      let b := set_pos axis (- bound axis bs / 2 + hs) b in
      set_vel axis (- vel axis b * RigidBody.restitution b) b
    else b in
  if decide (pos axis b > bound axis bs / 2 - hs) then
    let b := set_pos axis (bound axis bs / 2 - hs) b in
    set_vel axis (- vel axis b * RigidBody.restitution b) b
  else b.

Definition ceiling (bs : Bounds) (hs : R) (b : RigidBody.t) : RigidBody.t :=
  if decide (pos Vec3.Y b > by_ bs - hs) then
    let b := set_pos Vec3.Y (by_ bs - hs) b in
    set_vel Vec3.Y (- vel Vec3.Y b * RigidBody.restitution b) b
  else b.

(** The body of the third loop, for one [b]. *)
Definition resolve_bounds (bs : Bounds) (b : RigidBody.t) : RigidBody.t :=
  let hs := halfSize (RigidBody.shape b) in
  let b := ground hs b in
  let b := wall bs hs Vec3.X b in
  let b := wall bs hs Vec3.Z b in
  ceiling bs hs b.

(** *** Narrowphase: the loop over the grid *)

(** A statement [target.field = rhs] of the response, where [target] is [a]
    or [b] and [rhs] reads the objects [a] and [b] as they are when the
    statement runs (the two may be one object). *)
Definition assign (target a b : ref)
    (rhs : RigidBody.t -> RigidBody.t -> RigidBody.t) (h : Heap) : Heap :=
  match h !! a, h !! b with
  | Some A, Some B => <[target := rhs A B]> h
  | _, _ => h
  end.

(** The impulse response, written three times in the source; the copies
    differ in the normal and in the length of the positional correction
    ([penetration] for spheres, [0.05] for boxes and cylinders).  For two
    bodies with [invMass A + invMass B = 0] the two quotients are 0 here,
    whereas the source divides by zero and writes NaN into the velocities
    and positions of both; what the statements below say of the values
    written is said for a non-zero divisor. *)
Definition respond (a b : ref) (norm : Vec3.t) (correction : R)
    (A B : RigidBody.t) (h : Heap) : Heap :=
  let relVel :=
    Vec3.dot (Vec3.sub (RigidBody.velocity A) (RigidBody.velocity B)) norm in
  let impulse :=
    (- (1 + Rmin (RigidBody.restitution A) (RigidBody.restitution B)) * relVel) /
    (RigidBody.invMass A + RigidBody.invMass B) in
  let impulseVec := Vec3.mul norm impulse in
  let h := assign a a b (fun A B =>
    RigidBody.set_velocity
      (Vec3.add (RigidBody.velocity A) (Vec3.mul impulseVec (RigidBody.invMass A))) A) h in
  let h := assign b a b (fun A B =>
    RigidBody.set_velocity
      (Vec3.sub (RigidBody.velocity B) (Vec3.mul impulseVec (RigidBody.invMass B))) B) h in
  let h := assign a a b (fun A B =>
    RigidBody.set_position
      (Vec3.add (RigidBody.position A)
         (Vec3.mul norm (correction * RigidBody.invMass A /
                         (RigidBody.invMass A + RigidBody.invMass B)))) A) h in
  assign b a b (fun A B =>
    RigidBody.set_position
      (Vec3.sub (RigidBody.position B)
         (Vec3.mul norm (correction * RigidBody.invMass B /
                         (RigidBody.invMass A + RigidBody.invMass B)))) B) h.

(** The narrowphase test of a pair: [Some (norm, correction)] when the pair
    is of one handled kind and its test succeeds. *)
Definition contact (A B : RigidBody.t) : option (Vec3.t * R) :=
  match RigidBody.shape A, RigidBody.shape B with
  | SphereShape ra, SphereShape rb =>
      let d := Vec3.sub (RigidBody.position A) (RigidBody.position B) in
      let dist := Vec3.length d in
      let minDist := ra + rb in
      if decide (dist < minDist /\ dist > 0)
      then Some (Vec3.normalize d, minDist - dist)
      else None
  | BoxShape _, BoxShape _ =>
      if boxCollides A B
      then Some (Vec3.normalize (Vec3.sub (RigidBody.position A) (RigidBody.position B)),
                 5 / 100)
      else None
  | CylinderShape _ _, CylinderShape _ _ =>
      if cylinderCollides A B
      then Some (Vec3.normalize (Vec3.sub (RigidBody.position A) (RigidBody.position B)),
                 5 / 100)
      else None
  | _, _ => None
  end.

(** The body of the innermost loop for the pair [a = cellBodies[i]],
    [b = cellBodies[j]], on the store and the collision counter. *)
Definition collide (a b : ref) (st : Heap * Z) : Heap * Z :=
  let '(h, count) := st in
  match h !! a, h !! b with
  | Some A, Some B =>
      match contact A B with
      | Some (norm, correction) => (respond a b norm correction A B h, (count + 1)%Z)
      | None => st
      end
  | _, _ => st
  end.

(** [for (j = i+1; ...)] with [a] fixed: [rest] is [cellBodies] from [i+1]. *)
Definition inner_loop (a : ref) (rest : list ref) (st : Heap * Z) : Heap * Z :=
  fold_left (fun st b => collide a b st) rest st.

(** [for (i = 0; ...)] over one cell. *)
Fixpoint cell_loop (cellBodies : list ref) (st : Heap * Z) : Heap * Z :=
  match cellBodies with
  | [] => st
  | a :: rest => cell_loop rest (inner_loop a rest st)
  end.

(** [for (const cell in grid)] *)
Definition narrowphase (grid : Grid) (st : Heap * Z) : Heap * Z :=
  fold_left (fun st cell => cell_loop cell.2 st) grid st.

(** *** [update(dt)] *)

Definition update (dt : R) (s : state) : state :=
  let this := set_collisionCount 0 (world s) in
  let grid := broadphase (heap s) (bodies this) in
  let h := for_bodies (apply_and_integrate (gravity this) dt) (bodies this) (heap s) in
  let h := for_bodies (resolve_bounds (bounds this)) (bodies this) h in
  let '(h, count) := narrowphase grid (h, collisionCount this) in
  mkState h (set_collisionCount count this).

End PhysicsWorld.

(** ** Scene records: the save and import handlers *)

(** A value that may be [undefined] (a property the object lacks). *)
Inductive JsVal : Type := undefined | num (r : R).

(** Property reads off a shape object. *)
Definition prop_size (s : Shape) : JsVal :=
  match s with BoxShape size => num size | _ => undefined end.
Definition prop_radius (s : Shape) : JsVal :=
  match s with
  | SphereShape radius | CylinderShape radius _ => num radius
  | _ => undefined
  end.
Definition prop_height (s : Shape) : JsVal :=
  match s with CylinderShape _ height => num height | _ => undefined end.

(** [u || v]: [undefined] and [0] are the falsy values of this model. *)
Definition js_or (u v : JsVal) : JsVal :=
  match u with
  | undefined => v
  | num r => if decide (r = 0) then v else u
  end.

(** One element of the saved array.  [JSON.stringify] drops a property
    whose value is [undefined] and [JSON.parse] then yields an object that
    lacks it, so the record read back is the record written. *)
Record SceneRecord : Type := mkRecord {
  rec_type : Z;
  rec_position : Vec3.t;
  rec_velocity : Vec3.t;
  rec_angularVelocity : Vec3.t;
  rec_mass : R;
  rec_friction : R;
  rec_restitution : R;
  rec_size : JsVal;
  rec_height : JsVal;
  rec_color : Z
}.

(** The arrow function mapped over [world.bodies] by the save handler;
    [b.mesh.material] throws when the body has no mesh. *)
Definition save_record (b : RigidBody.t) : Completion SceneRecord :=
  match RigidBody.mesh b with
  | None => Throw TypeError
  | Some m =>
      Normal {|
        rec_type := type_code (shape_type (RigidBody.shape b));
        rec_position := RigidBody.position b;
        rec_velocity := RigidBody.velocity b;
        rec_angularVelocity := RigidBody.angularVelocity b;
        rec_mass := RigidBody.mass b;
        rec_friction := RigidBody.friction b;
        rec_restitution := RigidBody.restitution b;
        rec_size := js_or (prop_size (RigidBody.shape b)) (prop_radius (RigidBody.shape b));
        rec_height := prop_height (RigidBody.shape b);
        rec_color := mesh_color m
      |}
  end.

(** What importing one record yields: a body; a thrown error (for a type
    tag that is none of sphere, box, cylinder, [mesh] stays [undefined] and
    [mesh.position.set] throws); or a body whose shape dimension is
    [undefined], which the numbers of this model cannot hold. *)
Inductive ImportResult : Type :=
| Built (rb : RigidBody.t)
| Raised (e : JsError)
| UndefinedSize.

(** The body of [for (const obj of data)] in the import handler. *)
Definition import_record (obj : SceneRecord) : ImportResult :=
  let build (shape : Shape) : ImportResult :=
    let mesh := mkMesh (rec_position obj) [] (rec_color obj) in
    let rb := RigidBody.constructor (rec_position obj) shape (rec_mass obj) (Some mesh) in
    let rb := RigidBody.set_velocity (rec_velocity obj) rb in
    let rb := RigidBody.set_angularVelocity (rec_angularVelocity obj) rb in
    let rb := RigidBody.set_friction (rec_friction obj) rb in
    let rb := RigidBody.set_restitution (rec_restitution obj) rb in
    Built rb in
  if decide (rec_type obj = type_code SPHERE) then
    match rec_size obj with
    | num radius => build (SphereShape radius)
    | undefined => UndefinedSize
    end
  else if decide (rec_type obj = type_code BOX) then
    match rec_size obj with
    | num size => build (BoxShape size)
    | undefined => UndefinedSize
    end
  else if decide (rec_type obj = type_code CYLINDER) then
    (* [new CylinderShape(obj.size, obj.height || 2)], [radius = 1] by default *)
    let radius := match rec_size obj with num r => r | undefined => 1 end in
    match js_or (rec_height obj) (num 2) with
    | num height => build (CylinderShape radius height)
    | undefined => UndefinedSize
    end
  else Raised TypeError.

(** ** The scene as a whole: the save, import and reset handlers *)

(** [world.bodies = bs] *)
Definition set_bodies (bs : list ref) (this : PhysicsWorld.t) : PhysicsWorld.t :=
  PhysicsWorld.mk bs (PhysicsWorld.gravity this) (PhysicsWorld.bounds this)
    (PhysicsWorld.collisionCount this).

(** [world.bodies.map(b => ({...}))] of the save handler: the records of
    the listed bodies in order; the call throws at the first body without
    a mesh. *)
Fixpoint save_all (h : Heap) (bs : list ref) : Completion (list SceneRecord) :=
  match bs with
  | [] => Normal []
  | b :: rest =>
      match h !! b with
      | None => Throw TypeError
      | Some body =>
          match save_record body with
          | Throw e => Throw e
          | Normal r =>
              match save_all h rest with
              | Normal rs => Normal (r :: rs)
              | Throw e => Throw e
              end
          end
      end
  end.

Definition save_scene (s : PhysicsWorld.state) : Completion (list SceneRecord) :=
  save_all (PhysicsWorld.heap s) (PhysicsWorld.bodies (PhysicsWorld.world s)).

(** How the import handler ends: it ran to its end; or it threw at a
    record, leaving the state the records before it produced; or it built
    a body whose shape dimension is [undefined]. *)
Inductive ImportRun : Type :=
| Completed (s : PhysicsWorld.state)
| Aborted (e : JsError) (s : PhysicsWorld.state)
| OutsideModel.

(** [for (const obj of data) { ... world.addBody(rb); }]: every
    [new RigidBody] is a fresh object of the store. *)
Fixpoint import_loop (data : list SceneRecord) (s : PhysicsWorld.state) : ImportRun :=
  match data with
  | [] => Completed s
  | obj :: rest =>
      match import_record obj with
      | Built rb =>
          import_loop rest
            (PhysicsWorld.mkState (PhysicsWorld.heap s ++ [rb])
               (PhysicsWorld.addBody (length (PhysicsWorld.heap s)) (PhysicsWorld.world s)))
      | Raised e => Aborted e s
      | UndefinedSize => OutsideModel
      end
  end.

(** The [reader.onload] callback on the parsed [data]: [world.bodies = []],
    then the loop. *)
Definition import_scene (data : list SceneRecord) (s : PhysicsWorld.state) : ImportRun :=
  import_loop data
    (PhysicsWorld.mkState (PhysicsWorld.heap s) (set_bodies [] (PhysicsWorld.world s))).

(** The reset button: [world.bodies = []]. *)
Definition reset_scene (s : PhysicsWorld.state) : PhysicsWorld.state :=
  PhysicsWorld.mkState (PhysicsWorld.heap s) (set_bodies [] (PhysicsWorld.world s)).

(** ** Spawning *)

(** The [spawnShapes] table. *)
Definition spawnShapes : list (string * SHAPE_TYPE) :=
  [("Sphere"%string, SPHERE); ("Box"%string, BOX); ("Cylinder"%string, CYLINDER)].

(** [spawnShapes.find(s => s.name === shapeName)] *)
Fixpoint find_shape (shapeName : string) (table : list (string * SHAPE_TYPE))
    : option SHAPE_TYPE :=
  match table with
  | [] => None
  | (name, type) :: rest =>
      if decide (name = shapeName) then Some type else find_shape shapeName rest
  end.

(** What the three branches of [spawnBody] set: the shape, the mass, the
    colour of the mesh and the number of [Math.random()] calls made.  No
    branch runs for a type that is none of the three: [mesh] is then
    [undefined]. *)
Definition spawn_kind (type : SHAPE_TYPE) (random : nat -> R)
    : option (Shape * R * Z * nat) :=
  match type with
  | SPHERE =>
      let radius := 4 / 10 + random 0%nat * (3 / 10) in
      Some (SphereShape radius, 1, 49151%Z, 1%nat)
  | BOX =>
      let size := 4 / 10 + random 0%nat * (4 / 10) in
      Some (BoxShape size, 15 / 10, 16754176%Z, 1%nat)
  | CYLINDER =>
      let radius := 3 / 10 + random 0%nat * (3 / 10) in
      let height := 8 / 10 + random 1%nat * (8 / 10) in
      Some (CylinderShape radius height, 2, 3066944%Z, 2%nat)
  | CUSTOM => None
  end.

(** [spawnBody(shapeName, position)].  [random i] is the value of the
    [i]-th call of [Math.random()] made by this call of [spawnBody], and
    [friction] and [restitution] are the numbers read off the two sliders.
    A normal completion gives the new state and the body returned ([None]
    for the [undefined] of an unknown shape name); [mesh.position.set]
    throws when no branch has set [mesh]. *)
Definition spawnBody (shapeName : string) (position : Vec3.t) (random : nat -> R)
    (friction restitution : R) (s : PhysicsWorld.state)
    : Completion (PhysicsWorld.state * option ref) :=
  match find_shape shapeName spawnShapes with
  | None => Normal (s, None)
  | Some type =>
      match spawn_kind type random with
      | None => Throw TypeError
      | Some (shape, mass, color, used) =>
          let mesh := mkMesh position [] color in
          let rb := RigidBody.constructor position shape mass (Some mesh) in
          let rb := RigidBody.set_angularVelocity
            (Vec3.new (random used * 2 - 1) (random (S used) * 2 - 1)
               (random (S (S used)) * 2 - 1)) rb in
          let rb := RigidBody.set_friction friction rb in
          let rb := RigidBody.set_restitution restitution rb in
          let b := length (PhysicsWorld.heap s) in
          Normal
            (PhysicsWorld.mkState (PhysicsWorld.heap s ++ [rb])
               (PhysicsWorld.addBody b (PhysicsWorld.world s)),
             Some b)
      end
  end.

(** The shoot button: [spawnBody(name, new Vec3(0,5,0))], then
    [newBody.velocity = new Vec3(0,0,-12)] if a body came back. *)
Definition shoot (shapeName : string) (random : nat -> R)
    (friction restitution : R) (s : PhysicsWorld.state)
    : Completion PhysicsWorld.state :=
  match spawnBody shapeName (Vec3.new 0 5 0) random friction restitution s with
  | Normal (s', Some newBody) =>
      Normal
        (PhysicsWorld.mkState
           (alter (RigidBody.set_velocity (Vec3.new 0 0 (-12))) newBody
              (PhysicsWorld.heap s'))
           (PhysicsWorld.world s'))
  | Normal (s', None) => Normal s'
  | Throw e => Throw e
  end.

(** ** The simulation loop *)

(** The state of the loop besides the world: [paused], [lastTime],
    [timeScale]. *)
Record Loop : Type := mkLoop { paused : bool; lastTime : R; timeScale : R }.

(** [Math.min(0.05, (now-lastTime)/1000) * timeScale] *)
Definition frame_dt (now : R) (l : Loop) : R :=
  Rmin (5 / 100) ((now - lastTime l) / 1000) * timeScale l.

(** The physics of one call of [animate] at the time [now]: nothing while
    paused ([lastTime] stays); otherwise [lastTime = now] and
    [world.update(dt)]. *)
Definition animate (now : R) (l : Loop) (s : PhysicsWorld.state)
    : Loop * PhysicsWorld.state :=
  if paused l then (l, s)
  else (mkLoop (paused l) now (timeScale l), PhysicsWorld.update (frame_dt now l) s).

(** * Notions used in the statements *)

(** The constructor ties [invMass] to [mass]; no method assigns either. *)
Definition mass_consistent (b : RigidBody.t) : Prop :=
  RigidBody.invMass b =
  if decide (RigidBody.mass b > 0) then 1 / RigidBody.mass b else 0.

(** The fields of a body that [update] never assigns. *)
Definition identity_fields (b : RigidBody.t) : Shape * R * R * R * R :=
  (RigidBody.shape b, RigidBody.mass b, RigidBody.invMass b,
   RigidBody.restitution b, RigidBody.friction b).

(** The body lies between the ground and the ceiling and between the walls,
    its half-size taken into account. *)
Definition within_bounds (bs : Bounds) (b : RigidBody.t) : Prop :=
  let hs := PhysicsWorld.halfSize (RigidBody.shape b) in
  hs <= PhysicsWorld.pos Vec3.Y b <= by_ bs - hs /\
  - bx bs / 2 + hs <= PhysicsWorld.pos Vec3.X b <= bx bs / 2 - hs /\
  - bz bs / 2 + hs <= PhysicsWorld.pos Vec3.Z b <= bz bs / 2 - hs.

(** The body is not larger than the world along any axis. *)
Definition fits (bs : Bounds) (b : RigidBody.t) : Prop :=
  let hs := PhysicsWorld.halfSize (RigidBody.shape b) in
  hs <= bx bs / 2 /\ hs <= by_ bs / 2 /\ hs <= bz bs / 2.

(** The body [b] of the store [h] lies in the cell [key]. *)
Definition keyed (h : Heap) (key : Key) (b : ref) : bool :=
  match h !! b with
  | Some body => bool_decide (cell_key (RigidBody.position body) = key)
  | None => false
  end.

(** The first loop of [update], started from any grid. *)
Definition grid_from (h : Heap) (bs : list ref) (grid : Grid) : Grid :=
  fold_left
    (fun grid b =>
       match h !! b with
       | Some body => grid_push (cell_key (RigidBody.position body)) b grid
       | None => grid
       end)
    bs grid.

(** The narrowphase test of the pair [(a, b)] succeeds in the store [h]. *)
Definition hit (h : Heap) (a b : ref) : bool :=
  match h !! a, h !! b with
  | Some A, Some B =>
      match PhysicsWorld.contact A B with Some _ => true | None => false end
  | _, _ => false
  end.

(** The pairs [(cellBodies[i], cellBodies[j])], [i < j], in the order in
    which the two inner loops visit them. *)
Fixpoint cell_pairs (cell : list ref) : list (ref * ref) :=
  match cell with
  | [] => []
  | a :: rest => (pair a <$> rest) ++ cell_pairs rest
  end.

(** All pairs the narrowphase visits, cell after cell. *)
Definition candidates (grid : Grid) : list (ref * ref) :=
  mjoin ((fun c : Key * list ref => cell_pairs c.2) <$> grid).

(** The innermost loop body run over a list of pairs. *)
Definition collide_all (pairs : list (ref * ref)) (st : Heap * Z) : Heap * Z :=
  fold_left (fun st p => PhysicsWorld.collide p.1 p.2 st) pairs st.

(** The visited pairs whose test succeeded when they were visited, each
    later pair being tested in the store its predecessors left. *)
Fixpoint resolved (pairs : list (ref * ref)) (h : Heap) : list (ref * ref) :=
  match pairs with
  | [] => []
  | (a, b) :: rest =>
      let h' := (PhysicsWorld.collide a b (h, 0%Z)).1 in
      if hit h a b then (a, b) :: resolved rest h' else resolved rest h'
  end.

(** The store on which the narrowphase of [update(dt)] starts: the store
    at the call after the integration loop and the boundary loop. *)
Definition pre_narrowphase (dt : R) (s : PhysicsWorld.state) : Heap :=
  let this := PhysicsWorld.world s in
  let bs := PhysicsWorld.bodies this in
  PhysicsWorld.for_bodies (PhysicsWorld.resolve_bounds (PhysicsWorld.bounds this)) bs
    (PhysicsWorld.for_bodies
       (PhysicsWorld.apply_and_integrate (PhysicsWorld.gravity this) dt) bs
       (PhysicsWorld.heap s)).

(** The pairs that [update(dt)] resolves, in order. *)
Definition resolved_pairs (dt : R) (s : PhysicsWorld.state) : list (ref * ref) :=
  resolved
    (candidates
       (PhysicsWorld.broadphase (PhysicsWorld.heap s)
          (PhysicsWorld.bodies (PhysicsWorld.world s))))
    (pre_narrowphase dt s).

(** The shapes whose dimensions come back from a saved record: a falsy
    [size] of a box is replaced by the absent [radius], a falsy [height] of
    a cylinder by the default 2, and a compound shape is not rebuilt. *)
Definition survives_round_trip (s : Shape) : Prop :=
  match s with
  | SphereShape _ => True
  | BoxShape size => size <> 0
  | CylinderShape _ height => height <> 0
  | CompoundShape _ => False
  end.

(** The shapes that the program gives a body.  Bodies are built in two
    places, [spawnBody] and the import handler, and [shape] is assigned
    nowhere else: both build spheres, boxes and cylinders only, and the
    height of a cylinder is [0.8 + Math.random() * 0.8] in the one and
    [obj.height || 2] in the other, never 0. *)
Definition constructible (s : Shape) : Prop :=
  match s with
  | SphereShape _ | BoxShape _ => True
  | CylinderShape _ height => height <> 0
  | CompoundShape _ => False
  end.

(** A body as the scene holds them: both places pass a mesh to the
    constructor, and the shape is one they build.  Position, velocities,
    mass, friction and restitution are arbitrary. *)
Definition scene_body (b : RigidBody.t) : Prop :=
  is_Some (RigidBody.mesh b) /\ constructible (RigidBody.shape b).

(** The linear momentum of a body, [mass * velocity]. *)
Definition momentum (b : RigidBody.t) : Vec3.t :=
  Vec3.mul (RigidBody.velocity b) (RigidBody.mass b).

(** The squared speed of a body (its kinetic energy is [mass / 2] times
    it). *)
Definition speed_sq (b : RigidBody.t) : R :=
  Vec3.dot (RigidBody.velocity b) (RigidBody.velocity b).

(** The values of [Math.random()] lie in [0, 1). *)
Definition unit_random (random : nat -> R) : Prop :=
  forall i, 0 <= random i < 1.

(** What a scene record keeps of a body. *)
Definition saved_fields (b : RigidBody.t)
    : Shape * Vec3.t * Vec3.t * Vec3.t * R * R * R :=
  (RigidBody.shape b, RigidBody.position b, RigidBody.velocity b,
   RigidBody.angularVelocity b, RigidBody.mass b, RigidBody.friction b,
   RigidBody.restitution b).

(** The listed bodies of a state, read off the store in the order of
    [bodies] (a dangling reference is skipped). *)
Definition listed (s : PhysicsWorld.state) : list RigidBody.t :=
  omap (fun b => PhysicsWorld.heap s !! b) (PhysicsWorld.bodies (PhysicsWorld.world s)).

(** Every reference of the list points into the store. *)
Definition well_formed (s : PhysicsWorld.state) : Prop :=
  Forall (fun b => (b < length (PhysicsWorld.heap s))%nat)
    (PhysicsWorld.bodies (PhysicsWorld.world s)).

(** No velocity component of [b'] is larger in magnitude than in [b]. *)
Definition slower (b b' : RigidBody.t) : Prop :=
  forall axis,
    PhysicsWorld.vel axis b' * PhysicsWorld.vel axis b' <=
    PhysicsWorld.vel axis b * PhysicsWorld.vel axis b.

(** The number of bodies filed in a grid. *)
Definition grid_total (grid : Grid) : nat := sum_list (length <$> grid.*2).

(** The state after an import that built the bodies [new]: they are fresh
    objects behind the old store, and the list holds exactly them. *)
Definition imported_state (s : PhysicsWorld.state) (new : list RigidBody.t)
    : PhysicsWorld.state :=
  PhysicsWorld.mkState (PhysicsWorld.heap s ++ new)
    (set_bodies (seq (length (PhysicsWorld.heap s)) (length new)) (PhysicsWorld.world s)).

(** The rotational state of a body. *)
Definition spin_fields (b : RigidBody.t) : Vec3.t * Vec3.t * Quaternion * R * R :=
  (RigidBody.angularVelocity b, RigidBody.torque b, RigidBody.orientation b,
   RigidBody.inertia b, RigidBody.invInertia b).

(** No torque is pending on the body. *)
Definition no_torque (b : RigidBody.t) : Prop := RigidBody.torque b = Vec3.zero.

(** * Concrete bodies and worlds *)

(** A sphere of mass 0 at the spawn point, pushed by the force (1,0,0). *)
Definition static_pushed : RigidBody.t :=
  RigidBody.applyForce (Vec3.new 1 0 0)
    (RigidBody.constructor (Vec3.new 0 5 0) (SphereShape (1 / 2)) 0 None).

(** A box built with the negative mass [-3]. *)
Definition negative_mass_box : RigidBody.t :=
  RigidBody.constructor (Vec3.new 0 5 0) (BoxShape 1) (-3) None.

(** A sphere of radius 11 in the default world, whose box is 20 wide. *)
Definition oversized_sphere : RigidBody.t :=
  RigidBody.set_friction 0
    (RigidBody.set_restitution (1 / 2)
       (RigidBody.set_velocity (Vec3.new 1 1 1)
          (RigidBody.constructor (Vec3.new 0 0 0) (SphereShape 11) 1 None))).

(** A unit sphere that fell below the ground of the default world. *)
Definition sunk_sphere : RigidBody.t :=
  RigidBody.set_velocity (Vec3.new 1 (-2) 0)
    (RigidBody.constructor (Vec3.new 0 (-1) 0) (SphereShape 1) 1 None).

(** Two spheres of radius 1/2 and mass 2, half a unit apart, approaching
    each other along the first axis with speed 1. *)
Definition head_on_A : RigidBody.t :=
  RigidBody.set_restitution 1
    (RigidBody.set_velocity (Vec3.new (-1) 0 0)
       (RigidBody.constructor (Vec3.new (1 / 2) 1 0) (SphereShape (1 / 2)) 2 None)).
Definition head_on_B : RigidBody.t :=
  RigidBody.set_restitution 1
    (RigidBody.set_velocity (Vec3.new 1 0 0)
       (RigidBody.constructor (Vec3.new 0 1 0) (SphereShape (1 / 2)) 2 None)).

(** The default world holding the bodies of references 0 and 1. *)
Definition world_of_two : PhysicsWorld.t :=
  PhysicsWorld.addBody 1%nat (PhysicsWorld.addBody 0%nat PhysicsWorld.constructor).

(** Two unit-mass spheres of radius 1/2 above each other, the upper one at
    the spawn point, half a unit apart: they lie in two cells. *)
Definition falling_A : RigidBody.t :=
  RigidBody.constructor (Vec3.new 0 5 0) (SphereShape (1 / 2)) 1 None.
Definition falling_B : RigidBody.t :=
  RigidBody.constructor (Vec3.new 0 (9 / 2) 0) (SphereShape (1 / 2)) 1 None.
Definition two_falling : PhysicsWorld.state :=
  PhysicsWorld.mkState [falling_A; falling_B] world_of_two.

(** The same two spheres a quarter of a unit apart, in one cell. *)
Definition close_A : RigidBody.t :=
  RigidBody.constructor (Vec3.new 0 (11 / 2) 0) (SphereShape (1 / 2)) 1 None.
Definition close_B : RigidBody.t :=
  RigidBody.constructor (Vec3.new 0 (21 / 4) 0) (SphereShape (1 / 2)) 1 None.
Definition two_close : PhysicsWorld.state :=
  PhysicsWorld.mkState [close_A; close_B] world_of_two.


(** A box as [spawnBody] creates them, shot along the third axis, with an
    orange mesh. *)
Definition orange_box : RigidBody.t :=
  RigidBody.set_velocity (Vec3.new 0 0 (-12))
    (RigidBody.constructor (Vec3.new 0 5 0) (BoxShape (1 / 2)) (3 / 2)
       (Some (mkMesh (Vec3.new 0 5 0) [] 16754176))).

(** A sphere and a box at one place of the default world. *)
Definition mixed_pair : PhysicsWorld.state :=
  PhysicsWorld.mkState [falling_A; negative_mass_box] world_of_two.

(** The default world holding the orange box alone. *)
Definition one_box : PhysicsWorld.state :=
  PhysicsWorld.mkState [orange_box]
    (PhysicsWorld.addBody 0%nat PhysicsWorld.constructor).

(** A world that lists the body 0 twice. *)
Definition listed_twice : PhysicsWorld.t :=
  PhysicsWorld.addBody 0%nat world_of_two.

(** The record of a unit sphere, and a record with the type tag of a
    compound shape, which the import handler does not know. *)
Definition sphere_record : SceneRecord :=
  mkRecord 0 (Vec3.new 0 5 0) Vec3.zero Vec3.zero 1 (3 / 10) (35 / 100)
    (num 1) undefined 49151.
Definition compound_record : SceneRecord :=
  mkRecord 3 (Vec3.new 0 5 0) Vec3.zero Vec3.zero 1 (3 / 10) (35 / 100)
    undefined undefined 49151.

(** The body that importing [sphere_record] builds. *)
Definition imported_sphere : RigidBody.t :=
  RigidBody.set_restitution (35 / 100)
    (RigidBody.set_friction (3 / 10)
       (RigidBody.set_angularVelocity Vec3.zero
          (RigidBody.set_velocity Vec3.zero
             (RigidBody.constructor (Vec3.new 0 5 0) (SphereShape 1) 1
                (Some (mkMesh (Vec3.new 0 5 0) [] 49151)))))).

(** The record that saving [orange_box] writes. *)
Definition orange_box_record : SceneRecord :=
  mkRecord 1 (Vec3.new 0 5 0) (Vec3.new 0 0 (-12)) Vec3.zero (3 / 2) (3 / 10)
    (35 / 100) (num (1 / 2)) undefined 16754176.

(** A source of random numbers that always says 1/2. *)
Definition half_random : nat -> R := fun _ => 1 / 2.

(** A running loop at time scale 1 whose last frame was at time 0. *)
Definition running_loop : Loop := mkLoop false 0 1.

(** * Properties *)

(** ** Vectors *)

(** Unfolds the vector operations down to components. *)
Ltac vec_unfold :=
  unfold Vec3.add, Vec3.sub, Vec3.mul, Vec3.dot, Vec3.copy, Vec3.zero,
    Vec3.get, Vec3.put in *;
  simpl in *.

Section Vec3_facts.

Implicit Types v w : Vec3.t.

Lemma vec3_eq v w :
  Vec3.x v = Vec3.x w -> Vec3.y v = Vec3.y w -> Vec3.z v = Vec3.z w -> v = w.
Proof. destruct v, w; simpl; congruence. Qed.

Lemma length_nonneg v : 0 <= Vec3.length v.
Proof. apply sqrt_pos. Qed.

Lemma length_sqr v : Vec3.length v * Vec3.length v = Vec3.dot v v.
Proof.
  unfold Vec3.length, Vec3.dot. apply sqrt_sqrt.
  pose proof (Rle_0_sqr (Vec3.x v)); pose proof (Rle_0_sqr (Vec3.y v));
    pose proof (Rle_0_sqr (Vec3.z v)).
  unfold Rsqr in *. lra.
Qed.

(** A vector along the first axis has the absolute value of its component
    as length. *)
Lemma length_along_x (a : R) : Vec3.length (Vec3.new a 0 0) = Rabs a.
Proof.
  unfold Vec3.length; simpl.
  replace (a * a + 0 * 0 + 0 * 0) with (Rsqr a) by (unfold Rsqr; ring).
  apply sqrt_Rsqr_abs.
Qed.

Lemma length_along_y (a : R) : Vec3.length (Vec3.new 0 a 0) = Rabs a.
Proof.
  unfold Vec3.length; simpl.
  replace (0 * 0 + a * a + 0 * 0) with (Rsqr a) by (unfold Rsqr; ring).
  apply sqrt_Rsqr_abs.
Qed.

Lemma normalize_nonzero v :
  Vec3.length v <> 0 -> Vec3.normalize v = Vec3.mul v (1 / Vec3.length v).
Proof.
  intros Hl. unfold Vec3.normalize, Vec3.normalize_checked, Vec3.reciprocal.
  cbv zeta. by destruct (decide (Vec3.length v = 0)).
Qed.

Lemma normalize_zero_length v :
  Vec3.length v = 0 -> Vec3.normalize v = Vec3.new 0 0 0.
Proof.
  intros Hl. unfold Vec3.normalize, Vec3.normalize_checked. cbv zeta.
  by rewrite decide_True.
Qed.

(** The result of [normalize] on a vector of non-zero length is a unit
    vector. *)
Lemma normalize_unit v :
  Vec3.length v <> 0 -> Vec3.dot (Vec3.normalize v) (Vec3.normalize v) = 1.
Proof.
  intros Hl. rewrite normalize_nonzero by done.
  pose proof (length_sqr v) as Hs. unfold Vec3.dot in *. simpl.
  transitivity ((Vec3.x v * Vec3.x v + Vec3.y v * Vec3.y v + Vec3.z v * Vec3.z v)
                / (Vec3.length v * Vec3.length v)).
  - field. done.
  - rewrite <- Hs. field. done.
Qed.

End Vec3_facts.

Example normalize_3_0_4 :
  Vec3.normalize (Vec3.new 3 0 4) = Vec3.new (3 / 5) 0 (4 / 5).
Proof.
  assert (Hl : Vec3.length (Vec3.new 3 0 4) = 5).
  { unfold Vec3.length; simpl.
    replace (3 * 3 + 0 * 0 + 4 * 4) with (Rsqr 5) by (unfold Rsqr; ring).
    rewrite sqrt_Rsqr; lra. }
  rewrite normalize_nonzero; rewrite Hl; [|lra].
  unfold Vec3.mul; simpl. f_equal; lra.
Qed.

Example normalize_origin : Vec3.normalize (Vec3.new 0 0 0) = Vec3.new 0 0 0.
Proof.
  apply normalize_zero_length. rewrite length_along_x. apply Rabs_R0.
Qed.

Lemma length_zero (v : Vec3.t) : Vec3.length v = 0 <-> v = Vec3.new 0 0 0.
Proof.
  split.
  - unfold Vec3.length. intros H0.
    pose proof (Rle_0_sqr (Vec3.x v)) as Hx. pose proof (Rle_0_sqr (Vec3.y v)) as Hy.
    pose proof (Rle_0_sqr (Vec3.z v)) as Hz. unfold Rsqr in *.
    apply sqrt_eq_0 in H0; [|lra].
    assert (Hx0 : Vec3.x v * Vec3.x v = 0) by lra.
    assert (Hy0 : Vec3.y v * Vec3.y v = 0) by lra.
    assert (Hz0 : Vec3.z v * Vec3.z v = 0) by lra.
    apply Rmult_integral in Hx0, Hy0, Hz0.
    apply vec3_eq; simpl; tauto.
  - intros ->. rewrite length_along_x. apply Rabs_R0.
Qed.

(** C7. [Vec3.normalize] is total and never raises, and it never divides
    by zero: run with a checked reciprocal it has a vector as result on
    every input, the one that [normalize] returns.  The length is zero for
    the zero vector only, and the result is then [(0,0,0)].  On any other
    vector the result is the vector scaled by the reciprocal of its
    length: each component is the component of the input divided by
    [sqrt (x^2 + y^2 + z^2)], which makes the result a unit vector. *)
Theorem C7_normalize_total (v : Vec3.t) :
  Vec3.normalize_checked v = Some (Vec3.normalize v) /\
  (Vec3.length v = 0 <-> v = Vec3.new 0 0 0) /\
  (Vec3.length v = 0 -> Vec3.normalize v = Vec3.new 0 0 0) /\
  (Vec3.length v <> 0 ->
     Vec3.normalize v = Vec3.mul v (1 / Vec3.length v) /\
     Vec3.x (Vec3.normalize v) =
       Vec3.x v / sqrt (Vec3.x v * Vec3.x v + Vec3.y v * Vec3.y v + Vec3.z v * Vec3.z v) /\
     Vec3.y (Vec3.normalize v) =
       Vec3.y v / sqrt (Vec3.x v * Vec3.x v + Vec3.y v * Vec3.y v + Vec3.z v * Vec3.z v) /\
     Vec3.z (Vec3.normalize v) =
       Vec3.z v / sqrt (Vec3.x v * Vec3.x v + Vec3.y v * Vec3.y v + Vec3.z v * Vec3.z v) /\
     Vec3.dot (Vec3.normalize v) (Vec3.normalize v) = 1).
Proof.
  split; [|split; [apply length_zero|split; [apply normalize_zero_length|]]].
  - unfold Vec3.normalize, Vec3.normalize_checked, Vec3.reciprocal. cbv zeta.
    by destruct (decide (Vec3.length v = 0)).
  - intros H0. split; [by apply normalize_nonzero|].
    rewrite normalize_nonzero by done.
    split; [|split; [|split]]; [| | |by rewrite <- normalize_nonzero, normalize_unit].
    all: unfold Vec3.length in *; simpl; field; done.
Qed.

Lemma C7_normalize_witness :
  Vec3.normalize_checked (Vec3.new 0 0 0) = Some (Vec3.normalize (Vec3.new 0 0 0)) /\
  Vec3.normalize (Vec3.new 0 0 0) = Vec3.new 0 0 0 /\
  Vec3.x (Vec3.normalize (Vec3.new 3 0 4)) = 3 / sqrt (3 * 3 + 0 * 0 + 4 * 4) /\
  Vec3.dot (Vec3.normalize (Vec3.new 3 0 4)) (Vec3.normalize (Vec3.new 3 0 4)) = 1.
Proof.
  destruct (C7_normalize_total (Vec3.new 0 0 0)) as (Hchecked & Hzero & Horigin & _).
  destruct (C7_normalize_total (Vec3.new 3 0 4)) as (_ & _ & _ & Hscaled).
  assert (Hl : Vec3.length (Vec3.new 3 0 4) <> 0).
  { unfold Vec3.length; simpl.
    replace (3 * 3 + 0 * 0 + 4 * 4) with (Rsqr 5) by (unfold Rsqr; ring).
    rewrite sqrt_Rsqr; lra. }
  destruct (Hscaled Hl) as (_ & Hx & _ & _ & Hunit).
  split; [exact Hchecked|]. split; [|split; [exact Hx | exact Hunit]].
  apply Horigin. by apply Hzero.
Defined.

(** ** Shape construction *)

(** C6, as the code has it: the claim asks for a failure on a non-positive
    size; the three constructors instead complete normally on a negative
    radius, a zero edge and a negative height, and the shape carries the
    non-positive extent (here as the half-size the boundary step uses). *)
Lemma C6_nonpositive_size_accepted :
  new_SphereShape (-1) = Normal (SphereShape (-1)) /\
  new_BoxShape 0 = Normal (BoxShape 0) /\
  new_CylinderShape 1 (-2) = Normal (CylinderShape 1 (-2)) /\
  PhysicsWorld.halfSize (SphereShape (-1)) = -1 /\
  PhysicsWorld.halfSize (CylinderShape 1 (-2)) < 0.
Proof. repeat split; simpl; try reflexivity; lra. Qed.

(** C6, amended: constructing a shape never fails; whatever the sign of
    the size parameters, the constructor completes normally with a shape
    whose [radius], [size] and [height] properties are the arguments
    unchanged. *)
Theorem C6_constructors_never_fail (radius size height : R) :
  (exists s, new_SphereShape radius = Normal s /\ prop_radius s = num radius
             /\ shape_type s = SPHERE) /\
  (exists s, new_BoxShape size = Normal s /\ prop_size s = num size
             /\ shape_type s = BOX) /\
  (exists s, new_CylinderShape radius height = Normal s /\
             prop_radius s = num radius /\ prop_height s = num height
             /\ shape_type s = CYLINDER).
Proof. repeat split; eexists; repeat split. Qed.

(** ** Integration of one body *)

Section Integrate.

Import RigidBody.
Implicit Types (b : RigidBody.t) (f : Vec3.t) (dt : R).

Lemma constructor_mass_consistent p s m me :
  mass_consistent (constructor p s m me).
Proof. reflexivity. Qed.

Lemma applyForce_invMass f b : invMass (applyForce f b) = invMass b.
Proof. reflexivity. Qed.

Lemma applyForce_position f b : position (applyForce f b) = position b.
Proof. reflexivity. Qed.

Lemma applyForce_velocity f b : velocity (applyForce f b) = velocity b.
Proof. reflexivity. Qed.

Lemma integrate_static dt b : invMass b = 0 -> integrate dt b = b.
Proof. intros H0. unfold integrate. by rewrite decide_True. Qed.

Lemma sync_mesh_force dt b : force (sync_mesh dt b) = force b.
Proof. unfold sync_mesh. by destruct (mesh b). Qed.

Lemma integrate_dynamic_force dt b :
  invMass b <> 0 -> force (integrate dt b) = Vec3.zero.
Proof. intros H0. unfold integrate. by rewrite decide_False. Qed.

Lemma nonpositive_mass_static b :
  mass_consistent b -> mass b <= 0 -> invMass b = 0.
Proof.
  unfold mass_consistent. intros -> Hm. rewrite decide_False; [done | lra].
Qed.

(** Fields that [integrate] never assigns. *)
Lemma sync_mesh_frame dt b :
  shape (sync_mesh dt b) = shape b /\ mass (sync_mesh dt b) = mass b /\
  invMass (sync_mesh dt b) = invMass b /\
  restitution (sync_mesh dt b) = restitution b /\
  friction (sync_mesh dt b) = friction b.
Proof. unfold sync_mesh. by destruct (mesh b). Qed.

Lemma integrate_frame dt b :
  shape (integrate dt b) = shape b /\ mass (integrate dt b) = mass b /\
  invMass (integrate dt b) = invMass b /\
  restitution (integrate dt b) = restitution b /\
  friction (integrate dt b) = friction b.
Proof.
  unfold integrate. case_decide; [done|].
  simpl. unfold sync_mesh. simpl. by destruct (mesh b).
Qed.

End Integrate.

(** C3, as the code has it: for a body with [invMass = 0] the early
    [return] of [integrate] leaves the accumulated force in place. *)
Lemma C3_static_force_not_reset :
  RigidBody.invMass static_pushed = 0 /\
  RigidBody.force (RigidBody.integrate (1 / 64) static_pushed) = Vec3.new 1 0 0 /\
  RigidBody.force (RigidBody.integrate (1 / 64) static_pushed) <> Vec3.zero.
Proof.
  assert (H0 : RigidBody.invMass static_pushed = 0).
  { unfold static_pushed. simpl. rewrite decide_False; [done | lra]. }
  rewrite integrate_static by done.
  split; [done|]. split.
  - unfold static_pushed. simpl. vec_unfold. f_equal; lra.
  - unfold static_pushed. simpl. vec_unfold. intros [=]. lra.
Qed.

(** C3, amended: for every body with [invMass <> 0] and every [dt], the
    accumulated force is the zero vector after [integrate(dt)]; for a body
    with [invMass = 0], [integrate] returns at once and changes nothing,
    the accumulated force included. *)
Theorem C3_force_reset_unless_static (dt : R) (b : RigidBody.t) :
  (RigidBody.invMass b <> 0 ->
     RigidBody.force (RigidBody.integrate dt b) = Vec3.zero) /\
  (RigidBody.invMass b = 0 -> RigidBody.integrate dt b = b).
Proof. split; [apply integrate_dynamic_force | apply integrate_static]. Qed.

Lemma C3_force_reset_witness :
  RigidBody.force
    (RigidBody.integrate (1 / 64)
       (RigidBody.constructor (Vec3.new 0 5 0) (SphereShape (1 / 2)) 1 None))
  = Vec3.zero.
Proof.
  apply (C3_force_reset_unless_static (1 / 64)
           (RigidBody.constructor (Vec3.new 0 5 0) (SphereShape (1 / 2)) 1 None)).
  simpl. rewrite decide_True; lra.
Defined.

(** C4. A body whose mass is zero or negative has [invMass = 0] (the
    constructor's encoding, which no method changes), and [integrate]
    leaves its position and velocity as they were, whatever forces
    [applyForce] accumulated before and whatever [dt] is. *)
Theorem C4_static_body_invariance (b : RigidBody.t) (fs : list Vec3.t) (dt : R) :
  mass_consistent b ->
  RigidBody.mass b <= 0 ->
  RigidBody.invMass b = 0 /\
  RigidBody.position (RigidBody.integrate dt (foldr RigidBody.applyForce b fs))
    = RigidBody.position b /\
  RigidBody.velocity (RigidBody.integrate dt (foldr RigidBody.applyForce b fs))
    = RigidBody.velocity b.
Proof.
  intros Hc Hm.
  pose proof (nonpositive_mass_static b Hc Hm) as H0.
  assert (Hfs : RigidBody.invMass (foldr RigidBody.applyForce b fs) = 0 /\
                RigidBody.position (foldr RigidBody.applyForce b fs)
                  = RigidBody.position b /\
                RigidBody.velocity (foldr RigidBody.applyForce b fs)
                  = RigidBody.velocity b).
  { induction fs as [|f fs IH]; [done|]. cbn [fold_right].
    by rewrite applyForce_invMass, applyForce_position, applyForce_velocity. }
  destruct Hfs as (Hi & Hp & Hv).
  rewrite integrate_static by done. done.
Qed.

Lemma C4_static_body_witness :
  RigidBody.invMass negative_mass_box = 0 /\
  RigidBody.position
    (RigidBody.integrate (1 / 64)
       (foldr RigidBody.applyForce negative_mass_box
          [Vec3.new 1 2 3; Vec3.new 0 (-10) 0]))
    = RigidBody.position negative_mass_box /\
  RigidBody.velocity
    (RigidBody.integrate (1 / 64)
       (foldr RigidBody.applyForce negative_mass_box
          [Vec3.new 1 2 3; Vec3.new 0 (-10) 0]))
    = RigidBody.velocity negative_mass_box.
Proof.
  apply (C4_static_body_invariance negative_mass_box
           [Vec3.new 1 2 3; Vec3.new 0 (-10) 0] (1 / 64)).
  - apply constructor_mass_consistent.
  - simpl. lra.
Defined.

(** ** The ground and bounds step *)

Section Bounds.

Import RigidBody PhysicsWorld.
Implicit Types (b : RigidBody.t) (bs : Bounds) (hs : R).

(** *** The three stages, one at a time *)

Lemma ground_identity_fields hs b : identity_fields (ground hs b) = identity_fields b.
Proof. unfold ground. case_decide; reflexivity. Qed.

Lemma wall_identity_fields bs hs axis b :
  identity_fields (wall bs hs axis b) = identity_fields b.
Proof. unfold wall. repeat case_decide; reflexivity. Qed.

Lemma ceiling_identity_fields bs hs b : identity_fields (ceiling bs hs b) = identity_fields b.
Proof. unfold ceiling. case_decide; reflexivity. Qed.

Lemma ground_pos hs b :
  pos Vec3.X (ground hs b) = pos Vec3.X b /\
  pos Vec3.Z (ground hs b) = pos Vec3.Z b /\
  hs <= pos Vec3.Y (ground hs b).
Proof.
  unfold ground. case_decide; unfold pos in *; simpl in *; repeat split; lra.
Qed.

Lemma ground_fixed hs b : hs <= pos Vec3.Y b -> ground hs b = b.
Proof. intros Hy. unfold ground. rewrite decide_False; [done | lra]. Qed.

Lemma wall_pos_other bs hs axis other b :
  other <> axis -> pos other (wall bs hs axis b) = pos other b.
Proof.
  intros Hne. unfold wall.
  repeat case_decide; unfold pos, set_pos, set_vel; simpl;
    destruct (position b), axis, other; simpl; congruence.
Qed.

Lemma wall_pos bs hs axis b :
  hs <= bound axis bs / 2 ->
  - bound axis bs / 2 + hs <= pos axis (wall bs hs axis b) <= bound axis bs / 2 - hs.
Proof.
  intros Hfit. unfold wall.
  repeat case_decide; unfold pos, set_pos, set_vel in *; simpl in *;
    destruct (position b), axis; simpl in *; lra.
Qed.

Lemma wall_fixed bs hs axis b :
  - bound axis bs / 2 + hs <= pos axis b <= bound axis bs / 2 - hs ->
  wall bs hs axis b = b.
Proof.
  intros Hin. unfold wall.
  destruct (decide (pos axis b < _)) as [?|_]; [lra|].
  rewrite decide_False by lra. done.
Qed.

Lemma ceiling_pos bs hs b :
  pos Vec3.X (ceiling bs hs b) = pos Vec3.X b /\
  pos Vec3.Z (ceiling bs hs b) = pos Vec3.Z b /\
  pos Vec3.Y (ceiling bs hs b) <= by_ bs - hs /\
  (hs <= by_ bs / 2 -> hs <= pos Vec3.Y b -> hs <= pos Vec3.Y (ceiling bs hs b)).
Proof.
  unfold ceiling. case_decide; unfold pos in *; simpl in *; repeat split; lra.
Qed.

Lemma ceiling_fixed bs hs b : pos Vec3.Y b <= by_ bs - hs -> ceiling bs hs b = b.
Proof. intros Hy. unfold ceiling. rewrite decide_False; [done | lra]. Qed.

(** *** The whole step *)

Lemma resolve_bounds_identity_fields bs b :
  identity_fields (resolve_bounds bs b) = identity_fields b.
Proof.
  unfold resolve_bounds. cbv zeta.
  by rewrite ceiling_identity_fields, !wall_identity_fields, ground_identity_fields.
Qed.

Lemma resolve_bounds_shape bs b : shape (resolve_bounds bs b) = shape b.
Proof.
  pose proof (resolve_bounds_identity_fields bs b) as H.
  unfold identity_fields in H. by injection H.
Qed.

(** No clamp fires on a body that is within bounds. *)
Lemma resolve_bounds_fixed bs b : within_bounds bs b -> resolve_bounds bs b = b.
Proof.
  unfold within_bounds. cbv zeta. intros (Hy & Hx & Hz).
  unfold resolve_bounds. cbv zeta.
  rewrite ground_fixed by lra.
  rewrite (wall_fixed bs _ Vec3.X) by (unfold bound; lra).
  rewrite (wall_fixed bs _ Vec3.Z) by (unfold bound; lra).
  by rewrite ceiling_fixed by lra.
Qed.

(** One application brings a body that fits within bounds. *)
Lemma resolve_bounds_within bs b : fits bs b -> within_bounds bs (resolve_bounds bs b).
Proof.
  unfold fits, within_bounds. cbv zeta. intros (Hx & Hy & Hz).
  rewrite resolve_bounds_shape.
  unfold resolve_bounds. cbv zeta.
  set (hs := halfSize (shape b)) in *.
  set (b1 := ground hs b).
  set (b2 := wall bs hs Vec3.X b1).
  set (b3 := wall bs hs Vec3.Z b2).
  destruct (ground_pos hs b) as (_ & _ & Hg). fold b1 in Hg.
  pose proof (wall_pos bs hs Vec3.X b1 Hx) as Hwx. fold b2 in Hwx.
  pose proof (wall_pos bs hs Vec3.Z b2 Hz) as Hwz. fold b3 in Hwz.
  assert (Hy2 : pos Vec3.Y b2 = pos Vec3.Y b1) by by apply wall_pos_other.
  assert (Hy3 : pos Vec3.Y b3 = pos Vec3.Y b2) by by apply wall_pos_other.
  assert (Hx3 : pos Vec3.X b3 = pos Vec3.X b2) by by apply wall_pos_other.
  destruct (ceiling_pos bs hs b3) as (-> & -> & Hc1 & Hc2).
  unfold bound in Hwx, Hwz.
  assert (hs <= pos Vec3.Y (ceiling bs hs b3)) by (apply Hc2; lra).
  lra.
Qed.

End Bounds.

(** Normal form of a body built by the constructor and field assignments:
    the record with its fourteen fields, inner objects first. *)
Ltac body_norm :=
  cbv beta iota zeta delta
    [RigidBody.constructor RigidBody.applyForce RigidBody.applyTorque
     RigidBody.set_position RigidBody.set_velocity RigidBody.set_force
     RigidBody.set_mesh RigidBody.set_restitution RigidBody.set_friction
     RigidBody.set_angularVelocity RigidBody.set_torque
     RigidBody.position RigidBody.velocity RigidBody.force RigidBody.shape
     RigidBody.mass RigidBody.invMass RigidBody.mesh RigidBody.restitution
     RigidBody.friction RigidBody.angularVelocity RigidBody.orientation
     RigidBody.torque RigidBody.inertia RigidBody.invInertia
     Vec3.copy Vec3.x Vec3.y Vec3.z].

(** Evaluation of the boundary step on concrete numbers, one stage after
    the other from the innermost; each comparison is decided by linear
    arithmetic. *)
Ltac settle_decisions :=
  repeat (match goal with
          | |- context [decide ?P] =>
              first [ rewrite (decide_True (P := P)) by (simpl; lra)
                    | rewrite (decide_False (P := P)) by (simpl; lra) ]
          end; simpl).

Ltac stage_helpers :=
  unfold PhysicsWorld.set_pos, PhysicsWorld.set_vel, PhysicsWorld.pos,
    PhysicsWorld.vel, RigidBody.set_position, RigidBody.set_velocity, bound;
  simpl.

Ltac bounds_eval :=
  unfold PhysicsWorld.resolve_bounds; cbv zeta; simpl;
  unfold PhysicsWorld.ground; stage_helpers; settle_decisions;
  unfold PhysicsWorld.wall at 2; stage_helpers; settle_decisions;
  unfold PhysicsWorld.wall; stage_helpers; settle_decisions;
  unfold PhysicsWorld.ceiling; stage_helpers; settle_decisions.

(** One application of the boundary step to a sphere of radius 11 that
    lies below the upper faces of the 20-unit world: every clamp fires, the
    walls and the ceiling after the opposite side. *)
Lemma oversized_step (px py pz vx vy vz r fr m im : R) f me av o tq i ii :
  px < 1 -> py < 11 -> pz < 1 ->
  PhysicsWorld.resolve_bounds (mkBounds 20 20 20)
    (RigidBody.mk (Vec3.new px py pz) (Vec3.new vx vy vz) f (SphereShape 11)
       m im me r fr av o tq i ii) =
  RigidBody.mk (Vec3.new (-1) 9 (-1))
    (Vec3.new (vx * (1 - fr) * r * r) (vy * r * r) (vz * (1 - fr) * r * r))
    f (SphereShape 11) m im me r fr av o tq i ii.
Proof.
  intros Hx Hy Hz. bounds_eval.
  f_equal; apply vec3_eq; simpl; lra.
Qed.

Lemma oversized_once :
  PhysicsWorld.resolve_bounds (mkBounds 20 20 20) oversized_sphere =
  RigidBody.set_position (Vec3.new (-1) 9 (-1))
    (RigidBody.set_velocity (Vec3.new (1 / 4) (1 / 4) (1 / 4)) oversized_sphere).
Proof.
  unfold oversized_sphere. body_norm.
  rewrite oversized_step by lra.
  f_equal. apply vec3_eq; simpl; lra.
Qed.

Lemma oversized_twice :
  PhysicsWorld.resolve_bounds (mkBounds 20 20 20)
    (PhysicsWorld.resolve_bounds (mkBounds 20 20 20) oversized_sphere) =
  RigidBody.set_position (Vec3.new (-1) 9 (-1))
    (RigidBody.set_velocity (Vec3.new (1 / 16) (1 / 16) (1 / 16)) oversized_sphere).
Proof.
  rewrite oversized_once.
  unfold oversized_sphere. body_norm.
  rewrite oversized_step by lra.
  f_equal. apply vec3_eq; simpl; lra.
Qed.

(** C5, as the code has it: a body larger than the world is clamped against
    the ground and then against the ceiling (and against both walls) in
    every application, so a second application reflects its velocity
    again. *)
Lemma C5_oversized_body_reflected_again :
  RigidBody.velocity
    (PhysicsWorld.resolve_bounds (mkBounds 20 20 20) oversized_sphere)
    = Vec3.new (1 / 4) (1 / 4) (1 / 4) /\
  RigidBody.velocity
    (PhysicsWorld.resolve_bounds (mkBounds 20 20 20)
       (PhysicsWorld.resolve_bounds (mkBounds 20 20 20) oversized_sphere))
    = Vec3.new (1 / 16) (1 / 16) (1 / 16) /\
  PhysicsWorld.resolve_bounds (mkBounds 20 20 20)
    (PhysicsWorld.resolve_bounds (mkBounds 20 20 20) oversized_sphere)
    <> PhysicsWorld.resolve_bounds (mkBounds 20 20 20) oversized_sphere.
Proof.
  rewrite oversized_twice, oversized_once. repeat split.
  unfold RigidBody.set_position, RigidBody.set_velocity; simpl.
  intros [=]. lra.
Qed.

(** C5, amended: for every body whose half-size is at most half of each
    bound (the body fits in the world), the ground, wall and ceiling step
    is idempotent: a second application right after the first changes
    nothing of the body, so no clamp fires and no velocity component is
    reflected again. *)
Theorem C5_resolve_bounds_idempotent (bs : Bounds) (b : RigidBody.t) :
  fits bs b ->
  PhysicsWorld.resolve_bounds bs (PhysicsWorld.resolve_bounds bs b)
    = PhysicsWorld.resolve_bounds bs b.
Proof.
  intros Hfit. apply resolve_bounds_fixed. by apply resolve_bounds_within.
Qed.

Lemma C5_idempotent_witness :
  PhysicsWorld.resolve_bounds (mkBounds 20 20 20)
    (PhysicsWorld.resolve_bounds (mkBounds 20 20 20) sunk_sphere)
    = PhysicsWorld.resolve_bounds (mkBounds 20 20 20) sunk_sphere.
Proof.
  apply (C5_resolve_bounds_idempotent (mkBounds 20 20 20) sunk_sphere).
  unfold fits; simpl. lra.
Defined.

(** ** The response to a contact *)

Section Respond.

Import RigidBody PhysicsWorld.
Implicit Types (h : Heap) (a b r : ref) (A B : RigidBody.t).

Lemma assign_length target a b rhs h : length (assign target a b rhs h) = length h.
Proof.
  unfold assign. destruct (h !! a), (h !! b); try done. apply length_insert.
Qed.

Lemma assign_lookup_ne target a b rhs h r :
  r <> target -> assign target a b rhs h !! r = h !! r.
Proof.
  intros Hr. unfold assign. destruct (h !! a), (h !! b); try done.
  by apply list_lookup_insert_ne.
Qed.

Lemma assign_lookup_eq target a b rhs h A B :
  h !! a = Some A -> h !! b = Some B -> (target < length h)%nat ->
  assign target a b rhs h !! target = Some (rhs A B).
Proof.
  intros Ha Hb Hlt. unfold assign. rewrite Ha, Hb.
  by apply list_lookup_insert_eq.
Qed.

(** The objects [a] and [b] after the four assignments of the response,
    when they are two objects. *)
Lemma respond_distinct a b norm correction A B h :
  a <> b -> h !! a = Some A -> h !! b = Some B ->
  let relVel := Vec3.dot (Vec3.sub (velocity A) (velocity B)) norm in
  let impulse := (- (1 + Rmin (restitution A) (restitution B)) * relVel) /
                 (invMass A + invMass B) in
  let impulseVec := Vec3.mul norm impulse in
  respond a b norm correction A B h !! a =
    Some (set_position
            (Vec3.add (position A)
               (Vec3.mul norm (correction * invMass A / (invMass A + invMass B))))
            (set_velocity (Vec3.add (velocity A) (Vec3.mul impulseVec (invMass A))) A))
  /\
  respond a b norm correction A B h !! b =
    Some (set_position
            (Vec3.sub (position B)
               (Vec3.mul norm (correction * invMass B / (invMass A + invMass B))))
            (set_velocity (Vec3.sub (velocity B) (Vec3.mul impulseVec (invMass B))) B)).
Proof.
  intros Hab Ha Hb relVel impulse impulseVec.
  pose proof (lookup_lt_Some _ _ _ Ha) as Hla.
  pose proof (lookup_lt_Some _ _ _ Hb) as Hlb.
  unfold respond. fold relVel. fold impulse. fold impulseVec.
  set (f1 := fun A0 B0 : RigidBody.t =>
    set_velocity (Vec3.add (velocity A0) (Vec3.mul impulseVec (invMass A0))) A0).
  set (f2 := fun A0 B0 : RigidBody.t =>
    set_velocity (Vec3.sub (velocity B0) (Vec3.mul impulseVec (invMass B0))) B0).
  set (f3 := fun A0 B0 : RigidBody.t =>
    set_position (Vec3.add (position A0)
      (Vec3.mul norm (correction * invMass A0 / (invMass A0 + invMass B0)))) A0).
  set (f4 := fun A0 B0 : RigidBody.t =>
    set_position (Vec3.sub (position B0)
      (Vec3.mul norm (correction * invMass B0 / (invMass A0 + invMass B0)))) B0).
  set (h1 := assign a a b f1 h).
  assert (H1a : h1 !! a = Some (f1 A B)) by by apply assign_lookup_eq.
  assert (H1b : h1 !! b = Some B).
  { unfold h1. rewrite assign_lookup_ne; done. }
  assert (Hl1 : length h1 = length h) by apply assign_length.
  set (h2 := assign b a b f2 h1).
  assert (H2b : h2 !! b = Some (f2 (f1 A B) B)).
  { apply assign_lookup_eq; try done. lia. }
  assert (H2a : h2 !! a = Some (f1 A B)).
  { unfold h2. rewrite assign_lookup_ne; done. }
  assert (Hl2 : length h2 = length h).
  { unfold h2. rewrite assign_length. done. }
  set (h3 := assign a a b f3 h2).
  assert (H3a : h3 !! a = Some (f3 (f1 A B) (f2 (f1 A B) B))).
  { apply assign_lookup_eq; try done. lia. }
  assert (H3b : h3 !! b = Some (f2 (f1 A B) B)).
  { unfold h3. rewrite assign_lookup_ne; done. }
  assert (Hl3 : length h3 = length h).
  { unfold h3. rewrite assign_length. done. }
  split.
  - rewrite assign_lookup_ne by done. rewrite H3a. reflexivity.
  - erewrite assign_lookup_eq; [| exact H3a | exact H3b | lia]. reflexivity.
Qed.

(** The response writes the objects [a] and [b] only, and keeps the size
    of the store. *)
Lemma respond_lookup_other a b norm correction A B h r :
  r <> a -> r <> b -> respond a b norm correction A B h !! r = h !! r.
Proof.
  intros Hra Hrb. unfold respond. by rewrite !assign_lookup_ne.
Qed.

Lemma respond_length a b norm correction A B h :
  length (respond a b norm correction A B h) = length h.
Proof. unfold respond. by rewrite !assign_length. Qed.

End Respond.

(** ** Elastic head-on collision of two equal spheres *)

Section Elastic.

Import RigidBody PhysicsWorld.

(** The arithmetic of the exchange, on one component: [c] is a component
    of the separation [d], [q] the squared length of [d], [l] its length. *)
Lemma exchange_component (c q l s m : R) :
  l * l = q -> l <> 0 -> m <> 0 ->
  c * s +
  c * (1 / l) * (- (1 + 1) * ((1 / l) * ((s - s * -1) * q)) / (1 / m + 1 / m)) * (1 / m)
  = c * s * -1.
Proof. intros <- Hl Hm. field. split; lra. Qed.

Lemma exchange_component' (c q l s m : R) :
  l * l = q -> l <> 0 -> m <> 0 ->
  c * s * -1 -
  c * (1 / l) * (- (1 + 1) * ((1 / l) * ((s - s * -1) * q)) / (1 / m + 1 / m)) * (1 / m)
  = c * s.
Proof. intros <- Hl Hm. field. split; lra. Qed.

(** C1. Two sphere bodies of equal mass [m > 0] and restitution 1 overlap
    ([0 < |posA - posB| < radiusA + radiusB]) and move with the velocities
    [v] and [-v] along the line of centers.  The narrowphase step for the
    pair (and so the narrowphase over a grid cell that holds the two) then
    completes with the counter raised by exactly one and with the
    velocities exchanged: [a] moves with [-v], [b] with [v]. *)
Theorem C1_elastic_head_on_exchange
    (h : Heap) (count : Z) (a b : ref) (A B : RigidBody.t)
    (ra rb m s : R) (v : Vec3.t) :
  h !! a = Some A -> h !! b = Some B ->
  shape A = SphereShape ra -> shape B = SphereShape rb ->
  mass A = m -> mass B = m -> m > 0 ->
  mass_consistent A -> mass_consistent B ->
  restitution A = 1 -> restitution B = 1 ->
  0 < Vec3.length (Vec3.sub (position A) (position B)) < ra + rb ->
  v = Vec3.mul (Vec3.sub (position A) (position B)) s ->
  velocity A = v -> velocity B = Vec3.mul v (-1) ->
  exists h',
    collide a b (h, count) = (h', (count + 1)%Z) /\
    (forall key, narrowphase [(key, [a; b])] (h, count) = (h', (count + 1)%Z)) /\
    velocity <$> h' !! a = Some (Vec3.mul v (-1)) /\
    velocity <$> h' !! b = Some v.
Proof.
  intros Ha Hb HsA HsB HmA HmB Hm HcA HcB HrA HrB Hd Hv HvA HvB.
  cut (exists h',
    collide a b (h, count) = (h', (count + 1)%Z) /\
    velocity <$> h' !! a = Some (Vec3.mul v (-1)) /\
    velocity <$> h' !! b = Some v).
  { intros (h' & Hc & Hva & Hvb). by exists h'. }
  set (d := Vec3.sub (position A) (position B)) in *.
  assert (Hab : a <> b).
  { intros ->. rewrite Ha in Hb. injection Hb as ->.
    assert (Vec3.length d = 0); [|lra].
    unfold d, Vec3.length, Vec3.sub; simpl.
    rewrite !Rminus_diag, !Rmult_0_l, !Rplus_0_l. apply sqrt_0. }
  assert (HiA : invMass A = 1 / m).
  { rewrite HcA, HmA. by rewrite decide_True. }
  assert (HiB : invMass B = 1 / m).
  { rewrite HcB, HmB. by rewrite decide_True. }
  assert (Hl : Vec3.length d <> 0) by lra.
  pose proof (length_sqr d) as Hq.
  unfold collide. rewrite Ha, Hb.
  unfold contact. rewrite HsA, HsB. fold d.
  rewrite decide_True by (split; lra).
  eexists. split; [reflexivity|].
  destruct (respond_distinct a b (Vec3.normalize d)
              (ra + rb - Vec3.length d) A B h Hab Ha Hb) as [-> ->].
  simpl. rewrite HvA, HvB, HiA, HiB, HrA, HrB.
  rewrite normalize_nonzero by done.
  unfold Rmin. destruct (Rle_dec 1 1) as [_|Hn]; [|lra].
  rewrite Hv. unfold Vec3.dot in Hq.
  set (l := Vec3.length d) in *.
  destruct d as [dx dy dz]. unfold Vec3.add, Vec3.sub, Vec3.mul, Vec3.dot; simpl in *.
  assert (Hm0 : m <> 0) by lra.
  split; f_equal; f_equal.
  - etrans; [|exact (exchange_component dx _ l s m Hq Hl Hm0)]. field. lra.
  - etrans; [|exact (exchange_component dy _ l s m Hq Hl Hm0)]. field. lra.
  - etrans; [|exact (exchange_component dz _ l s m Hq Hl Hm0)]. field. lra.
  - etrans; [|exact (exchange_component' dx _ l s m Hq Hl Hm0)]. field. lra.
  - etrans; [|exact (exchange_component' dy _ l s m Hq Hl Hm0)]. field. lra.
  - etrans; [|exact (exchange_component' dz _ l s m Hq Hl Hm0)]. field. lra.
Qed.

End Elastic.

Lemma head_on_separation :
  Vec3.sub (RigidBody.position head_on_A) (RigidBody.position head_on_B)
  = Vec3.new (1 / 2) 0 0.
Proof. apply vec3_eq; simpl; lra. Qed.

Lemma C1_elastic_head_on_witness :
  exists h',
    PhysicsWorld.collide 0%nat 1%nat ([head_on_A; head_on_B], 0%Z) = (h', (0 + 1)%Z) /\
    (forall key,
       PhysicsWorld.narrowphase [(key, [0%nat; 1%nat])] ([head_on_A; head_on_B], 0%Z)
       = (h', (0 + 1)%Z)) /\
    RigidBody.velocity <$> h' !! 0%nat = Some (Vec3.mul (Vec3.new (-1) 0 0) (-1)) /\
    RigidBody.velocity <$> h' !! 1%nat = Some (Vec3.new (-1) 0 0).
Proof.
  apply (C1_elastic_head_on_exchange [head_on_A; head_on_B] 0%Z 0%nat 1%nat
           head_on_A head_on_B (1 / 2) (1 / 2) 2 (-2) (Vec3.new (-1) 0 0));
    try reflexivity.
  - lra.
  - rewrite head_on_separation, length_along_x, Rabs_right; lra.
  - rewrite head_on_separation. apply vec3_eq; simpl; lra.
  - apply vec3_eq; simpl; lra.
Defined.

(** ** Loops over the bodies *)

Section Loops.

Import RigidBody PhysicsWorld.
Implicit Types (h : Heap) (bs : list ref) (a b r : ref) (grid : Grid) (key : Key).

Lemma identity_alter (f : RigidBody.t -> RigidBody.t) r h :
  (forall x, identity_fields (f x) = identity_fields x) ->
  identity_fields <$> alter f r h = identity_fields <$> h.
Proof.
  intros Hf. apply list_eq. intros i. rewrite !list_lookup_fmap.
  destruct (decide (r = i)) as [->|Hne].
  - rewrite list_lookup_alter_eq. destruct (h !! i); simpl; [|done].
    by rewrite Hf.
  - by rewrite list_lookup_alter_ne.
Qed.

Lemma identity_insert r h (A A' : RigidBody.t) :
  h !! r = Some A -> identity_fields A' = identity_fields A ->
  identity_fields <$> <[r := A']> h = identity_fields <$> h.
Proof.
  intros Hr HA. rewrite list_fmap_insert. apply list_insert_id.
  by rewrite list_lookup_fmap, Hr, HA.
Qed.

Lemma for_bodies_identity_fields f bs h :
  (forall x, identity_fields (f x) = identity_fields x) ->
  identity_fields <$> for_bodies f bs h = identity_fields <$> h.
Proof.
  intros Hf. unfold for_bodies. revert h.
  induction bs as [|b bs IH]; intros h; simpl; [done|].
  rewrite IH. by apply identity_alter.
Qed.

Lemma for_bodies_lookup_other f bs h r :
  r ∉ bs -> for_bodies f bs h !! r = h !! r.
Proof.
  unfold for_bodies. revert h.
  induction bs as [|b bs IH]; intros h Hr; simpl; [done|].
  apply not_elem_of_cons in Hr as [Hrb Hr].
  rewrite IH by done. by apply list_lookup_alter_ne.
Qed.

Lemma apply_and_integrate_identity_fields g dt (b : RigidBody.t) :
  identity_fields (apply_and_integrate g dt b) = identity_fields b.
Proof.
  unfold apply_and_integrate, identity_fields.
  destruct (integrate_frame dt (applyForce (Vec3.mul g (mass b)) b))
    as (-> & -> & -> & -> & ->).
  reflexivity.
Qed.

End Loops.

(** ** The broadphase grid *)

Section Broadphase.

Import RigidBody PhysicsWorld.
Implicit Types (h : Heap) (bs : list ref) (a b r : ref) (grid : Grid) (key k : Key).

Lemma grid_push_cell key k b grid :
  grid_cell key (grid_push k b grid) =
  if decide (k = key) then grid_cell key grid ++ [b] else grid_cell key grid.
Proof.
  induction grid as [|[k0 cell] grid IH]; simpl.
  - repeat case_decide; done.
  - destruct (decide (k0 = k)) as [->|Hk0]; simpl.
    + repeat case_decide; done.
    + rewrite IH. repeat case_decide; try done. congruence.
Qed.

Lemma grid_push_keys k b grid :
  (grid_push k b grid).*1 = if decide (k ∈ grid.*1) then grid.*1 else grid.*1 ++ [k].
Proof.
  induction grid as [|[k0 cell] grid IH]; cbn [grid_push].
  - rewrite decide_False; [done | apply not_elem_of_nil].
  - rewrite fmap_cons. cbn [fst].
    destruct (decide (k0 = k)) as [->|Hk0].
    + rewrite decide_True; [done | apply list_elem_of_here].
    + rewrite fmap_cons, IH. cbn [fst].
      destruct (decide (k ∈ grid.*1)) as [Hin|Hin].
      * rewrite decide_True; [done | by apply list_elem_of_further].
      * rewrite decide_False; [done|].
        intros [?|?]%elem_of_cons; congruence.
Qed.

Lemma grid_push_NoDup k b grid : NoDup grid.*1 -> NoDup (grid_push k b grid).*1.
Proof.
  intros Hnd. rewrite grid_push_keys. case_decide; [done|].
  apply NoDup_app. split; [done|]. split.
  - intros x Hx ->%list_elem_of_singleton. done.
  - apply NoDup_singleton.
Qed.

(** With distinct keys, an entry of the grid is what the lookup of its key
    finds. *)
Lemma grid_entry_cell grid k cell :
  NoDup grid.*1 -> (k, cell) ∈ grid -> grid_cell k grid = cell.
Proof.
  induction grid as [|[k0 cell0] grid IH]; simpl; intros Hnd Hin.
  - by apply elem_of_nil in Hin.
  - apply NoDup_cons in Hnd as [Hk0 Hnd].
    apply elem_of_cons in Hin as [[= -> ->]|Hin].
    + by rewrite decide_True.
    + rewrite decide_False; [by apply IH|].
      intros ->. apply Hk0. apply list_elem_of_fmap. by exists (k, cell).
Qed.

Lemma grid_from_cell h key bs grid :
  grid_cell key (grid_from h bs grid) =
  grid_cell key grid ++ filter (fun b => keyed h key b) bs.
Proof.
  unfold grid_from. revert grid.
  induction bs as [|b bs IH]; intros grid; simpl.
  - by rewrite app_nil_r.
  - rewrite IH. rewrite filter_cons.
    destruct (h !! b) as [body|] eqn:Hb.
    + assert (Hkey : keyed h key b = bool_decide (cell_key (position body) = key)).
      { unfold keyed. by rewrite Hb. }
      rewrite Hkey, grid_push_cell.
      destruct (decide (cell_key (position body) = key)) as [Hk|Hk].
      * rewrite decide_True by by apply bool_decide_spec.
        by rewrite <- app_assoc.
      * rewrite decide_False; [done|]. by rewrite bool_decide_spec.
    + assert (Hkey : keyed h key b = false).
      { unfold keyed. by rewrite Hb. }
      rewrite Hkey. by rewrite decide_False by tauto.
Qed.

Lemma grid_from_NoDup h bs grid : NoDup grid.*1 -> NoDup (grid_from h bs grid).*1.
Proof.
  unfold grid_from. revert grid.
  induction bs as [|b bs IH]; intros grid Hnd; simpl; [done|].
  apply IH. destruct (h !! b); [by apply grid_push_NoDup | done].
Qed.

(** Each cell of the grid holds, in the order of [bodies], the bodies
    whose position in [h] floors to the key of the cell. *)
Lemma broadphase_cell h bs key :
  grid_cell key (broadphase h bs) = filter (fun b => keyed h key b) bs.
Proof. apply (grid_from_cell h key bs []). Qed.

Lemma broadphase_NoDup h bs : NoDup (broadphase h bs).*1.
Proof. apply (grid_from_NoDup h bs []). simpl. apply NoDup_nil_2. Qed.

Lemma broadphase_entry h bs k cell :
  (k, cell) ∈ broadphase h bs -> cell = filter (fun b => keyed h k b) bs.
Proof.
  intros Hin. rewrite <- broadphase_cell. symmetry.
  apply grid_entry_cell; [apply broadphase_NoDup | done].
Qed.

(** The grid holds bodies of the list only. *)
Lemma broadphase_refs h bs k cell r :
  (k, cell) ∈ broadphase h bs -> r ∈ cell -> r ∈ bs.
Proof.
  intros Hin Hr. rewrite (broadphase_entry _ _ _ _ Hin) in Hr.
  by apply list_elem_of_filter in Hr as [_ Hr].
Qed.

End Broadphase.

(** ** The narrowphase loops *)

Section Narrowphase.

Import RigidBody PhysicsWorld.
Implicit Types (h : Heap) (bs cell : list ref) (a b r : ref) (grid : Grid)
  (st : Heap * Z) (pairs : list (ref * ref)) (n : Z).

Lemma inner_loop_pairs a rest st :
  inner_loop a rest st = collide_all (pair a <$> rest) st.
Proof.
  unfold inner_loop, collide_all. revert st.
  induction rest as [|b rest IH]; intros st; simpl; [done|]. apply IH.
Qed.

Lemma collide_all_app pairs1 pairs2 st :
  collide_all (pairs1 ++ pairs2) st = collide_all pairs2 (collide_all pairs1 st).
Proof. unfold collide_all. apply fold_left_app. Qed.

Lemma cell_loop_pairs cell st : cell_loop cell st = collide_all (cell_pairs cell) st.
Proof.
  revert st. induction cell as [|a rest IH]; intros st; simpl; [done|].
  by rewrite collide_all_app, IH, inner_loop_pairs.
Qed.

Lemma narrowphase_candidates grid st :
  narrowphase grid st = collide_all (candidates grid) st.
Proof.
  unfold narrowphase, candidates. revert st.
  induction grid as [|c grid IH]; intros st; simpl; [done|].
  by rewrite collide_all_app, IH, cell_loop_pairs.
Qed.

Lemma cell_pairs_elem cell a b : (a, b) ∈ cell_pairs cell -> a ∈ cell /\ b ∈ cell.
Proof.
  induction cell as [|c rest IH]; simpl; intros Hin.
  - by apply elem_of_nil in Hin.
  - apply elem_of_app in Hin as [Hin|Hin].
    + apply list_elem_of_fmap in Hin as (b' & [= -> ->] & Hb).
      split; [apply list_elem_of_here | by apply list_elem_of_further].
    + destruct (IH Hin). split; by apply list_elem_of_further.
Qed.

Lemma candidates_elem grid a b :
  (a, b) ∈ candidates grid ->
  exists key cell, (key, cell) ∈ grid /\ a ∈ cell /\ b ∈ cell.
Proof.
  unfold candidates. intros Hin.
  apply list_elem_of_join in Hin as (ps & Hin & Hps).
  apply list_elem_of_fmap in Hps as ([key cell] & -> & Hc).
  exists key, cell. split; [done|]. by apply cell_pairs_elem.
Qed.

End Narrowphase.

(** ** One visit of a pair, and runs of visits *)

Section Collide.

Import RigidBody PhysicsWorld.
Implicit Types (h : Heap) (bs cell : list ref) (a b r : ref) (grid : Grid)
  (st : Heap * Z) (pairs : list (ref * ref)) (n : Z) (A B : RigidBody.t).

(** Only pairs of one handled kind have a contact. *)
Lemma contact_same_kind A B c :
  contact A B = Some c ->
  shape_type (shape A) = shape_type (shape B) /\ shape_type (shape A) <> CUSTOM.
Proof.
  unfold contact. destruct (shape A), (shape B); simpl; try done.
Qed.

Lemma assign_identity_a a b rhs h :
  (forall A B, identity_fields (rhs A B) = identity_fields A) ->
  identity_fields <$> assign a a b rhs h = identity_fields <$> h.
Proof.
  intros Hrhs. unfold assign.
  destruct (h !! a) as [A|] eqn:Ha; [|done].
  destruct (h !! b) as [B|] eqn:Hb; [|done].
  by apply (identity_insert a h A).
Qed.

Lemma assign_identity_b a b rhs h :
  (forall A B, identity_fields (rhs A B) = identity_fields B) ->
  identity_fields <$> assign b a b rhs h = identity_fields <$> h.
Proof.
  intros Hrhs. unfold assign.
  destruct (h !! a) as [A|] eqn:Ha; [|done].
  destruct (h !! b) as [B|] eqn:Hb; [|done].
  by apply (identity_insert b h B).
Qed.

Lemma respond_identity_fields a b norm correction A B h :
  identity_fields <$> respond a b norm correction A B h = identity_fields <$> h.
Proof.
  unfold respond.
  rewrite assign_identity_b by done. rewrite assign_identity_a by done.
  rewrite assign_identity_b by done. by rewrite assign_identity_a.
Qed.

(** What one visit of a pair does: on a hit, the response and one more
    collision; otherwise nothing. *)
Lemma collide_hit a b h n :
  hit h a b = true ->
  exists A B norm correction,
    h !! a = Some A /\ h !! b = Some B /\ contact A B = Some (norm, correction) /\
    collide a b (h, n) = (respond a b norm correction A B h, (n + 1)%Z).
Proof.
  unfold hit, collide. intros Hhit.
  destruct (h !! a) as [A|]; [|done]. destruct (h !! b) as [B|]; [|done].
  destruct (contact A B) as [[norm correction]|] eqn:Hc; [|done].
  by exists A, B, norm, correction.
Qed.

Lemma collide_miss a b h n : hit h a b = false -> collide a b (h, n) = (h, n).
Proof.
  unfold hit, collide. intros Hhit.
  destruct (h !! a) as [A|]; [|done]. destruct (h !! b) as [B|]; [|done].
  by destruct (contact A B) as [[norm correction]|].
Qed.

(** The store a visit leaves does not depend on the counter, and the
    counter rises by one exactly on a hit. *)
Lemma collide_count a b h n :
  collide a b (h, n) =
  ((collide a b (h, 0%Z)).1, (n + if hit h a b then 1 else 0)%Z).
Proof.
  unfold hit, collide.
  destruct (h !! a) as [A|]; [|by rewrite Z.add_0_r].
  destruct (h !! b) as [B|]; [|by rewrite Z.add_0_r].
  destruct (contact A B) as [[norm correction]|]; [done | by rewrite Z.add_0_r].
Qed.

Lemma collide_identity_fields a b h n :
  identity_fields <$> (collide a b (h, n)).1 = identity_fields <$> h.
Proof.
  destruct (hit h a b) eqn:Hhit.
  - destruct (collide_hit a b h n Hhit) as (A & B & norm & c & _ & _ & _ & ->).
    apply respond_identity_fields.
  - by rewrite collide_miss.
Qed.

Lemma collide_lookup_other a b h n r :
  r <> a -> r <> b -> (collide a b (h, n)).1 !! r = h !! r.
Proof.
  intros Hra Hrb. destruct (hit h a b) eqn:Hhit.
  - destruct (collide_hit a b h n Hhit) as (A & B & norm & c & _ & _ & _ & ->).
    by apply respond_lookup_other.
  - by rewrite collide_miss.
Qed.

(** The counter after a run over pairs: its value before, plus the number
    of resolved pairs; the store does not depend on the counter. *)
Lemma collide_all_count pairs h n :
  collide_all pairs (h, n) =
  ((collide_all pairs (h, 0%Z)).1, (n + Z.of_nat (length (resolved pairs h)))%Z).
Proof.
  revert h n. induction pairs as [|[a b] pairs IH]; intros h n.
  - simpl. by rewrite Z.add_0_r.
  - unfold collide_all in *. cbn [fold_left resolved fst snd].
    pose proof (collide_count a b h n) as Hn.
    pose proof (collide_count a b h 0%Z) as H0.
    set (h' := (collide a b (h, 0%Z)).1) in *.
    rewrite Hn, H0.
    rewrite (IH h' (n + _)%Z), (IH h' (0 + _)%Z). cbn [fst]. f_equal.
    destruct (hit h a b); simpl length; lia.
Qed.

Lemma collide_all_identity_fields pairs h n :
  identity_fields <$> (collide_all pairs (h, n)).1 = identity_fields <$> h.
Proof.
  revert h n. induction pairs as [|[a b] pairs IH]; intros h n; [done|].
  unfold collide_all in *. cbn [fold_left fst snd].
  destruct (collide a b (h, n)) as [h' n'] eqn:Hc.
  rewrite IH. change h' with (h', n').1. rewrite <- Hc. apply collide_identity_fields.
Qed.

Lemma collide_all_lookup_other pairs h n r :
  (forall a b, (a, b) ∈ pairs -> r <> a /\ r <> b) ->
  (collide_all pairs (h, n)).1 !! r = h !! r.
Proof.
  revert h n. induction pairs as [|[a b] pairs IH]; intros h n Hr; [done|].
  unfold collide_all in *. cbn [fold_left fst snd].
  destruct (collide a b (h, n)) as [h' n'] eqn:Hc.
  rewrite IH.
  - change h' with (h', n').1. rewrite <- Hc.
    destruct (Hr a b) as [? ?]; [apply list_elem_of_here|].
    by apply collide_lookup_other.
  - intros a' b' Hin. apply Hr. by apply list_elem_of_further.
Qed.

Lemma resolved_elem pairs h p : p ∈ resolved pairs h -> p ∈ pairs.
Proof.
  revert h. induction pairs as [|[a b] pairs IH]; intros h; simpl; [done|].
  destruct (hit h a b).
  - intros [->|Hin]%elem_of_cons; [apply list_elem_of_here|].
    apply list_elem_of_further. by eapply IH.
  - intros Hin. apply list_elem_of_further. by eapply IH.
Qed.

(** A resolved pair is a pair of bodies of one handled kind. *)
Lemma resolved_same_kind pairs h a b :
  (a, b) ∈ resolved pairs h ->
  exists A B, h !! a = Some A /\ h !! b = Some B /\
    shape_type (shape A) = shape_type (shape B) /\
    shape_type (shape A) <> CUSTOM.
Proof.
  revert h. induction pairs as [|[a' b'] pairs IH]; intros h; simpl.
  - by intros ?%elem_of_nil.
  - assert (Htail : (a, b) ∈ resolved pairs (collide a' b' (h, 0%Z)).1 ->
      exists A B, h !! a = Some A /\ h !! b = Some B /\
        shape_type (shape A) = shape_type (shape B) /\
        shape_type (shape A) <> CUSTOM).
    { intros Hin. destruct (IH _ Hin) as (A' & B' & Ha & Hb & Hk & Hc).
      pose proof (collide_identity_fields a' b' h 0%Z) as Hid.
      assert (HA : identity_fields <$> h !! a = Some (identity_fields A')).
      { by rewrite <- list_lookup_fmap, <- Hid, list_lookup_fmap, Ha. }
      assert (HB : identity_fields <$> h !! b = Some (identity_fields B')).
      { by rewrite <- list_lookup_fmap, <- Hid, list_lookup_fmap, Hb. }
      destruct (h !! a) as [A|]; [|done]. destruct (h !! b) as [B|]; [|done].
      unfold identity_fields in HA, HB.
      injection HA as HA _ _ _ _. injection HB as HB _ _ _ _.
      exists A, B. by rewrite HA, HB. }
    destruct (hit h a' b') eqn:Hhit; [|done].
    intros [[= -> ->]|Hin]%elem_of_cons; [|by apply Htail].
    destruct (collide_hit a' b' h 0%Z Hhit) as (A & B & norm & c & Ha & Hb & Hc & _).
    exists A, B. split; [done|]. split; [done|]. by eapply contact_same_kind.
Qed.

End Collide.

(** ** The whole step *)

Section Update.

Import RigidBody PhysicsWorld.
Implicit Types (s : state) (dt : R) (r a b : ref).

(** [update] in terms of its stages: the grid is built from the store as it
    is when [update] is called, the narrowphase runs on the store that
    integration and the boundary step leave, and the counter starts at 0. *)
Lemma update_stages dt s :
  update dt s =
  mkState
    (narrowphase (broadphase (heap s) (bodies (world s))) (pre_narrowphase dt s, 0%Z)).1
    (set_collisionCount
       (narrowphase (broadphase (heap s) (bodies (world s))) (pre_narrowphase dt s, 0%Z)).2
       (world s)).
Proof.
  unfold update, pre_narrowphase. cbn [bodies gravity bounds collisionCount set_collisionCount].
  by destruct (narrowphase _ _).
Qed.

Lemma pre_narrowphase_identity_fields dt s :
  identity_fields <$> pre_narrowphase dt s = identity_fields <$> heap s.
Proof.
  unfold pre_narrowphase. cbv zeta.
  rewrite for_bodies_identity_fields by apply resolve_bounds_identity_fields.
  apply for_bodies_identity_fields. intros x. apply apply_and_integrate_identity_fields.
Qed.

Lemma pre_narrowphase_lookup_other dt s r :
  r ∉ bodies (world s) -> pre_narrowphase dt s !! r = heap s !! r.
Proof.
  intros Hr. unfold pre_narrowphase. cbv zeta.
  by rewrite !for_bodies_lookup_other.
Qed.

(** The counter after [update] counts the resolved pairs. *)
Lemma update_count dt s :
  collisionCount (world (update dt s)) = Z.of_nat (length (resolved_pairs dt s)).
Proof.
  rewrite update_stages. cbn [world collisionCount set_collisionCount].
  rewrite narrowphase_candidates, collide_all_count. cbn [snd].
  unfold resolved_pairs. lia.
Qed.

(** C10. [update(dt)] leaves the list [bodies] as it is (the same
    references in the same order), and with it [gravity] and [bounds]; the
    store keeps its size; an object that is not in [bodies] is untouched;
    and of every object the shape, mass, inverse mass, restitution and
    friction are kept.  What [update] writes is thus confined to the other
    fields of the listed bodies and to [collisionCount]. *)
Theorem C10_update_keeps_bodies (dt : R) (s : state) :
  bodies (world (update dt s)) = bodies (world s) /\
  gravity (world (update dt s)) = gravity (world s) /\
  bounds (world (update dt s)) = bounds (world s) /\
  length (heap (update dt s)) = length (heap s) /\
  identity_fields <$> heap (update dt s) = identity_fields <$> heap s /\
  (forall r, r ∉ bodies (world s) -> heap (update dt s) !! r = heap s !! r).
Proof.
  rewrite update_stages. cbn [heap world bodies gravity bounds set_collisionCount].
  rewrite narrowphase_candidates.
  assert (Hid : identity_fields <$>
      (collide_all (candidates (broadphase (heap s) (bodies (world s))))
         (pre_narrowphase dt s, 0%Z)).1 = identity_fields <$> heap s).
  { by rewrite collide_all_identity_fields, pre_narrowphase_identity_fields. }
  repeat split; try done.
  - rewrite <- (length_fmap identity_fields), Hid. apply length_fmap.
  - intros r Hr. rewrite collide_all_lookup_other.
    + by apply pre_narrowphase_lookup_other.
    + intros a b Hab.
      apply candidates_elem in Hab as (key & cell & Hcell & Ha & Hb).
      split; intros ->; apply Hr; by eapply broadphase_refs.
Qed.

(** C9. After [update(dt)] the counter is the number of pairs resolved in
    this call: the visited pairs whose narrowphase test succeeded.  Each of
    them is a pair of two entries of one grid cell and of two bodies of one
    handled shape kind, and the result of [update] does not depend on the
    value the counter had before the call. *)
Theorem C9_collision_count (dt : R) (s : state) :
  collisionCount (world (update dt s)) = Z.of_nat (length (resolved_pairs dt s)) /\
  (forall a b, (a, b) ∈ resolved_pairs dt s ->
     (exists key cell,
        (key, cell) ∈ broadphase (heap s) (bodies (world s)) /\ a ∈ cell /\ b ∈ cell) /\
     (exists A B,
        heap s !! a = Some A /\ heap s !! b = Some B /\
        shape_type (shape A) = shape_type (shape B) /\
        shape_type (shape A) <> CUSTOM)) /\
  (forall n,
     update dt (mkState (heap s) (set_collisionCount n (world s))) = update dt s).
Proof.
  split; [|split].
  - apply update_count.
  - intros a b Hab. unfold resolved_pairs in Hab. split.
    + apply candidates_elem. by eapply resolved_elem.
    + apply resolved_same_kind in Hab as (A' & B' & Ha & Hb & Hk & Hc).
      pose proof (pre_narrowphase_identity_fields dt s) as Hid.
      assert (HA : identity_fields <$> heap s !! a = Some (identity_fields A')).
      { by rewrite <- list_lookup_fmap, <- Hid, list_lookup_fmap, Ha. }
      assert (HB : identity_fields <$> heap s !! b = Some (identity_fields B')).
      { by rewrite <- list_lookup_fmap, <- Hid, list_lookup_fmap, Hb. }
      destruct (heap s !! a) as [A|]; [|done].
      destruct (heap s !! b) as [B|]; [|done].
      unfold identity_fields in HA, HB.
      injection HA as HA _ _ _ _. injection HB as HB _ _ _ _.
      exists A, B. by rewrite HA, HB.
  - intros n. reflexivity.
Qed.

End Update.

(** ** Which positions the grid is built from *)

Section Falling.

Import RigidBody PhysicsWorld.

Lemma integrate_position dt (b : RigidBody.t) :
  invMass b <> 0 ->
  position (integrate dt b) =
  Vec3.add (position b)
    (Vec3.mul (Vec3.add (velocity b) (Vec3.mul (force b) (dt * invMass b))) dt).
Proof.
  intros H0. unfold integrate. rewrite decide_False by done.
  cbn [set_force position]. unfold sync_mesh.
  by destruct (mesh _).
Qed.

(** One step of free fall under the default gravity, for a body of mass 1
    fresh from the constructor. *)
Lemma free_fall_position (px py pz dt : R) (shp : Shape) :
  position (apply_and_integrate (Vec3.new 0 (-10) 0) dt
              (RigidBody.constructor (Vec3.new px py pz) shp 1 None))
  = Vec3.new px (py - 10 * dt * dt) pz.
Proof.
  unfold apply_and_integrate.
  assert (Hi : invMass (applyForce
            (Vec3.mul (Vec3.new 0 (-10) 0)
               (mass (RigidBody.constructor (Vec3.new px py pz) shp 1 None)))
            (RigidBody.constructor (Vec3.new px py pz) shp 1 None)) = 1).
  { cbn [applyForce set_force invMass RigidBody.constructor]. rewrite decide_True by lra. lra. }
  rewrite integrate_position by (rewrite Hi; lra).
  rewrite Hi. cbn [applyForce set_force RigidBody.constructor position velocity force mass].
  apply vec3_eq; vec_unfold; lra.
Qed.

Lemma free_fall_shape (p g : Vec3.t) (dt : R) (shp : Shape) :
  shape (apply_and_integrate g dt (RigidBody.constructor p shp 1 None)) = shp.
Proof.
  pose proof (apply_and_integrate_identity_fields g dt (RigidBody.constructor p shp 1 None)) as H.
  unfold identity_fields in H. by injection H.
Qed.

(** A sphere of radius 1/2 in free fall that stays clear of the faces of
    the default world is left alone by the boundary step. *)
Lemma free_fall_no_clamp (py dt : R) :
  1 / 2 <= py - 10 * dt * dt <= 19 ->
  resolve_bounds (mkBounds 20 20 20)
    (apply_and_integrate (Vec3.new 0 (-10) 0) dt
       (RigidBody.constructor (Vec3.new 0 py 0) (SphereShape (1 / 2)) 1 None))
  = apply_and_integrate (Vec3.new 0 (-10) 0) dt
      (RigidBody.constructor (Vec3.new 0 py 0) (SphereShape (1 / 2)) 1 None).
Proof.
  intros Hy. apply resolve_bounds_fixed. unfold within_bounds. cbv zeta.
  rewrite free_fall_shape. unfold pos.
  rewrite free_fall_position. simpl. lra.
Qed.

(** The store before the narrowphase, for two bodies in the default
    world. *)
Lemma pre_narrowphase_two (A B : RigidBody.t) (dt : R) :
  pre_narrowphase dt (mkState [A; B] world_of_two) =
  [resolve_bounds (mkBounds 20 20 20)
     (apply_and_integrate (Vec3.new 0 (-10) 0) dt A);
   resolve_bounds (mkBounds 20 20 20)
     (apply_and_integrate (Vec3.new 0 (-10) 0) dt B)].
Proof. reflexivity. Qed.

Lemma two_falling_pre_narrowphase :
  pre_narrowphase (1 / 64) two_falling =
  [apply_and_integrate (Vec3.new 0 (-10) 0) (1 / 64) falling_A;
   apply_and_integrate (Vec3.new 0 (-10) 0) (1 / 64) falling_B].
Proof.
  unfold two_falling. rewrite pre_narrowphase_two.
  unfold falling_A, falling_B.
  rewrite !free_fall_no_clamp by lra. reflexivity.
Qed.

Lemma two_falling_grid :
  broadphase (heap two_falling) (bodies (world two_falling)) =
  [((0, 5, 0)%Z, [0%nat]); ((0, 4, 0)%Z, [1%nat])].
Proof.
  assert (HA : cell_key (position falling_A) = (0, 5, 0)%Z).
  { unfold cell_key. simpl. by rewrite !ZfloorZ. }
  assert (HB : cell_key (position falling_B) = (0, 4, 0)%Z).
  { unfold cell_key. simpl. rewrite ZfloorZ.
    rewrite (Zfloor_eq 4 (9 / 2)) by lra. done. }
  unfold broadphase, two_falling, world_of_two.
  cbn [world heap bodies addBody PhysicsWorld.constructor app fold_left
       lookup list_lookup].
  rewrite HA, HB. reflexivity.
Qed.

(** Two freshly built spheres of radius 1/2 and mass 1 whose centers are
    above each other, less than a unit apart, have a contact after a step
    of free fall. *)
Lemma free_fall_hit (pa pb dt : R) :
  0 < pa - pb < 1 ->
  hit [apply_and_integrate (Vec3.new 0 (-10) 0) dt
         (RigidBody.constructor (Vec3.new 0 pa 0) (SphereShape (1 / 2)) 1 None);
       apply_and_integrate (Vec3.new 0 (-10) 0) dt
         (RigidBody.constructor (Vec3.new 0 pb 0) (SphereShape (1 / 2)) 1 None)]
      0%nat 1%nat = true.
Proof.
  intros Hd. unfold hit. cbn [lookup list_lookup].
  unfold contact. rewrite !free_fall_shape, !free_fall_position.
  replace (Vec3.sub _ _) with (Vec3.new 0 (pa - pb) 0)
    by (apply vec3_eq; vec_unfold; lra).
  rewrite length_along_y, Rabs_right by lra.
  rewrite decide_True by lra. done.
Qed.

End Falling.

(** The same step with the two spheres in one cell: the pair is visited,
    its test succeeds, and the counter ends at 1 whatever it was before. *)
Example update_counts_overlapping_pair :
  PhysicsWorld.broadphase (PhysicsWorld.heap two_close)
    (PhysicsWorld.bodies (PhysicsWorld.world two_close))
  = [((0, 5, 0)%Z, [0%nat; 1%nat])] /\
  resolved_pairs (1 / 64) two_close = [(0%nat, 1%nat)] /\
  PhysicsWorld.collisionCount (PhysicsWorld.world (PhysicsWorld.update (1 / 64) two_close))
  = 1%Z.
Proof.
  assert (HA : cell_key (RigidBody.position close_A) = (0, 5, 0)%Z).
  { unfold cell_key. simpl. rewrite ZfloorZ.
    rewrite (Zfloor_eq 5 (11 / 2)) by lra. done. }
  assert (HB : cell_key (RigidBody.position close_B) = (0, 5, 0)%Z).
  { unfold cell_key. simpl. rewrite ZfloorZ.
    rewrite (Zfloor_eq 5 (21 / 4)) by lra. done. }
  assert (Hgrid : PhysicsWorld.broadphase (PhysicsWorld.heap two_close)
            (PhysicsWorld.bodies (PhysicsWorld.world two_close))
          = [((0, 5, 0)%Z, [0%nat; 1%nat])]).
  { unfold PhysicsWorld.broadphase, two_close, world_of_two.
    cbn [PhysicsWorld.world PhysicsWorld.heap PhysicsWorld.bodies
         PhysicsWorld.addBody PhysicsWorld.constructor app fold_left
         lookup list_lookup].
    rewrite HA, HB. reflexivity. }
  assert (Hres : resolved_pairs (1 / 64) two_close = [(0%nat, 1%nat)]).
  { unfold resolved_pairs. rewrite Hgrid.
    unfold two_close. rewrite pre_narrowphase_two.
    unfold close_A, close_B. rewrite !free_fall_no_clamp by lra.
    cbn [candidates fmap list_fmap mjoin list_join cell_pairs app snd resolved].
    rewrite free_fall_hit by lra. reflexivity. }
  split; [exact Hgrid|]. split; [exact Hres|].
  rewrite update_count, Hres. reflexivity.
Qed.



(** ** Saving and importing a body *)

Section Scene.

Import RigidBody.

Lemma copy_id (v : Vec3.t) : Vec3.copy v = v.
Proof. by destruct v. Qed.

(** What the import handler builds from the record of a sphere, box or
    cylinder whose dimensions are numbers. *)
Lemma import_record_built (obj : SceneRecord) (shp : Shape) :
  (rec_type obj = 0%Z /\ exists r, rec_size obj = num r /\ shp = SphereShape r) \/
  (rec_type obj = 1%Z /\ exists sz, rec_size obj = num sz /\ shp = BoxShape sz) \/
  (rec_type obj = 2%Z /\ exists r ht,
     rec_size obj = num r /\ js_or (rec_height obj) (num 2) = num ht /\
     shp = CylinderShape r ht) ->
  exists b',
    import_record obj = Built b' /\
    shape b' = shp /\
    position b' = rec_position obj /\
    velocity b' = rec_velocity obj /\
    angularVelocity b' = rec_angularVelocity obj /\
    mass b' = rec_mass obj /\
    friction b' = rec_friction obj /\
    restitution b' = rec_restitution obj.
Proof.
  intros [(Ht & r & Hs & ->) | [(Ht & sz & Hs & ->) | (Ht & r & ht & Hs & Hh & ->)]];
    unfold import_record; rewrite Ht; cbn [type_code].
  - rewrite decide_True by done. rewrite Hs.
    eexists. split; [reflexivity|]. cbn. by rewrite copy_id.
  - rewrite decide_False by done. rewrite decide_True by done. rewrite Hs.
    eexists. split; [reflexivity|]. cbn. by rewrite copy_id.
  - rewrite decide_False by done. rewrite decide_False by done.
    rewrite decide_True by done. rewrite Hs, Hh.
    eexists. split; [reflexivity|]. cbn. by rewrite copy_id.
Qed.

End Scene.

(** ** The bodies of a scene *)

Section Scene_bodies.

Import RigidBody.

(** Every body that the import handler builds is a scene body. *)
Lemma import_record_scene_body (obj : SceneRecord) (b : RigidBody.t) :
  import_record obj = Built b -> scene_body b.
Proof.
  unfold import_record, scene_body. repeat case_decide; try done.
  - destruct (rec_size obj); [done|]. intros [= <-]. split; [by eexists | done].
  - destruct (rec_size obj); [done|]. intros [= <-]. split; [by eexists | done].
  - destruct (js_or (rec_height obj) (num 2)) as [|ht] eqn:Hh; [done|].
    intros [= <-]. split; [by eexists|].
    cbn [shape set_restitution set_friction set_angularVelocity set_velocity
         RigidBody.constructor constructible].
    unfold js_or in Hh. destruct (rec_height obj) as [|ht0].
    + injection Hh as <-. lra.
    + case_decide; injection Hh as <-; [lra | done].
Qed.

(** Conversely, every shape of a scene body is the shape of a body that
    the import handler builds from some record. *)
Lemma scene_body_importable (b : RigidBody.t) :
  scene_body b ->
  exists obj b0, import_record obj = Built b0 /\ shape b0 = shape b.
Proof.
  intros [_ Hs]. destruct (shape b) as [r|sz|r ht|parts] eqn:Hshape; [| | |done].
  - destruct (import_record_built
                (mkRecord 0 Vec3.zero Vec3.zero Vec3.zero 1 0 0 (num r) undefined 0)
                (SphereShape r)) as (b0 & Hb0 & Hsh & _).
    { left. split; [done|]. by exists r. }
    by eexists _, b0.
  - destruct (import_record_built
                (mkRecord 1 Vec3.zero Vec3.zero Vec3.zero 1 0 0 (num sz) undefined 0)
                (BoxShape sz)) as (b0 & Hb0 & Hsh & _).
    { right. left. split; [done|]. by exists sz. }
    by eexists _, b0.
  - destruct (import_record_built
                (mkRecord 2 Vec3.zero Vec3.zero Vec3.zero 1 0 0 (num r) (num ht) 0)
                (CylinderShape r ht)) as (b0 & Hb0 & Hsh & _).
    { right. right. split; [done|]. exists r, ht. split; [done|]. split; [|done].
      cbn [js_or rec_height]. cbn in Hs. by rewrite decide_False. }
    by eexists _, b0.
Qed.


End Scene_bodies.




(** * Further properties of the code *)

(** ** The physics of the impulse response *)

Section Contact_physics.

Import RigidBody PhysicsWorld.
Implicit Types (h : Heap) (a b : ref) (A B : RigidBody.t) (n : Z).

Lemma length_mul (v : Vec3.t) (k : R) :
  Vec3.length (Vec3.mul v k) = Rabs k * Vec3.length v.
Proof.
  unfold Vec3.length, Vec3.mul; simpl.
  replace (Vec3.x v * k * (Vec3.x v * k) + Vec3.y v * k * (Vec3.y v * k) +
           Vec3.z v * k * (Vec3.z v * k))
    with (Rsqr k * (Vec3.x v * Vec3.x v + Vec3.y v * Vec3.y v + Vec3.z v * Vec3.z v))
    by (unfold Rsqr; ring).
  rewrite sqrt_mult_alt by apply Rle_0_sqr.
  by rewrite sqrt_Rsqr_abs.
Qed.

(** Every contact normal is [normalize(posA - posB)]. *)
Lemma contact_normal A B norm correction :
  contact A B = Some (norm, correction) ->
  norm = Vec3.normalize (Vec3.sub (position A) (position B)).
Proof.
  unfold contact. destruct (shape A), (shape B); try done.
  - case_decide; [|done]. by intros [= <- _].
  - destruct (boxCollides A B); [|done]. by intros [= <- _].
  - destruct (cylinderCollides A B); [|done]. by intros [= <- _].
Qed.

(** The result of [normalize] is a unit vector or the zero vector. *)
Lemma normalize_unit_or_zero (v : Vec3.t) :
  Vec3.dot (Vec3.normalize v) (Vec3.normalize v) = 1 \/
  Vec3.normalize v = Vec3.new 0 0 0.
Proof.
  destruct (decide (Vec3.length v = 0)) as [H0|H0].
  - right. by apply normalize_zero_length.
  - left. by apply normalize_unit.
Qed.

(** A visit of a pair of two objects, whatever its outcome: both objects
    are still there, and on a hit they are what [respond_distinct] says. *)
Lemma collide_distinct a b h n A B :
  a <> b -> h !! a = Some A -> h !! b = Some B ->
  (hit h a b = false /\ (collide a b (h, n)).1 = h) \/
  (exists norm correction,
     contact A B = Some (norm, correction) /\
     (collide a b (h, n)).1 = respond a b norm correction A B h).
Proof.
  intros Hab Ha Hb. destruct (hit h a b) eqn:Hhit.
  - right. destruct (collide_hit a b h n Hhit)
      as (A' & B' & norm & c & Ha' & Hb' & Hc & ->).
    rewrite Ha in Ha'. rewrite Hb in Hb'. injection Ha' as <-. injection Hb' as <-.
    by exists norm, c.
  - left. split; [done|]. by rewrite collide_miss.
Qed.

(** X1. A visit of a pair of two dynamic bodies conserves their total
    linear momentum, whatever the shapes, the restitutions and the outcome
    of the test. *)
Theorem collide_conserves_momentum a b h n A B :
  a <> b -> h !! a = Some A -> h !! b = Some B ->
  mass_consistent A -> mass_consistent B -> mass A > 0 -> mass B > 0 ->
  exists A' B',
    (collide a b (h, n)).1 !! a = Some A' /\
    (collide a b (h, n)).1 !! b = Some B' /\
    Vec3.add (momentum A') (momentum B') = Vec3.add (momentum A) (momentum B).
Proof.
  intros Hab Ha Hb HcA HcB HmA HmB.
  destruct (collide_distinct a b h n A B Hab Ha Hb)
    as [[_ ->] | (norm & c & _ & ->)].
  - by exists A, B.
  - destruct (respond_distinct a b norm c A B h Hab Ha Hb) as [-> ->].
    eexists _, _. split; [reflexivity|]. split; [reflexivity|].
    unfold momentum. cbn [velocity mass set_position set_velocity].
    unfold mass_consistent in HcA, HcB.
    rewrite decide_True in HcA by done. rewrite decide_True in HcB by done.
    rewrite HcA, HcB.
    set (J := Vec3.mul norm _). destruct J as [jx jy jz].
    destruct (velocity A) as [ax ay az], (velocity B) as [bx0 by0 bz0].
    apply vec3_eq; vec_unfold; field; lra.
Qed.

Lemma collide_conserves_momentum_witness :
  exists A' B',
    (collide 0%nat 1%nat ([head_on_A; head_on_B], 0%Z)).1 !! 0%nat = Some A' /\
    (collide 0%nat 1%nat ([head_on_A; head_on_B], 0%Z)).1 !! 1%nat = Some B' /\
    Vec3.add (momentum A') (momentum B')
    = Vec3.add (momentum head_on_A) (momentum head_on_B).
Proof.
  apply (collide_conserves_momentum 0%nat 1%nat [head_on_A; head_on_B] 0%Z
           head_on_A head_on_B); try reflexivity.
  - lia.
  - simpl. lra.
  - simpl. lra.
Defined.

(** An object whose velocity gets a zero multiple of the impulse and whose
    position gets a zero multiple of the normal is as before. *)
Lemma unmoved_add (x : RigidBody.t) (norm J : Vec3.t) (k : R) :
  k = 0 ->
  set_position (Vec3.add (position x) (Vec3.mul norm k))
    (set_velocity (Vec3.add (velocity x) (Vec3.mul J 0)) x) = x.
Proof.
  intros ->. destruct x as [[px py pz] [vx vy vz] f s m im me r fr av o tq i ii].
  unfold set_position, set_velocity; simpl.
  f_equal; apply vec3_eq; vec_unfold; ring.
Qed.

Lemma unmoved_sub (x : RigidBody.t) (norm J : Vec3.t) (k : R) :
  k = 0 ->
  set_position (Vec3.sub (position x) (Vec3.mul norm k))
    (set_velocity (Vec3.sub (velocity x) (Vec3.mul J 0)) x) = x.
Proof.
  intros ->. destruct x as [[px py pz] [vx vy vz] f s m im me r fr av o tq i ii].
  unfold set_position, set_velocity; simpl.
  f_equal; apply vec3_eq; vec_unfold; ring.
Qed.

(** X2. In a visit of a pair of two objects of which at least one can
    move, an immovable body ([invMass = 0]) is left exactly as it was. *)
Theorem collide_keeps_immovable a b h n A B :
  a <> b -> h !! a = Some A -> h !! b = Some B ->
  invMass A + invMass B <> 0 ->
  (invMass A = 0 -> (collide a b (h, n)).1 !! a = Some A) /\
  (invMass B = 0 -> (collide a b (h, n)).1 !! b = Some B).
Proof.
  intros Hab Ha Hb Hsum.
  destruct (collide_distinct a b h n A B Hab Ha Hb)
    as [[_ ->] | (norm & c & _ & ->)]; [done|].
  destruct (respond_distinct a b norm c A B h Hab Ha Hb) as [-> ->].
  split; intros H0; f_equal; rewrite H0.
  - apply unmoved_add. rewrite H0 in Hsum. field. lra.
  - apply unmoved_sub. rewrite H0 in Hsum. field. lra.
Qed.

Lemma collide_keeps_immovable_witness :
  (invMass close_A = 0 ->
   (collide 0%nat 1%nat ([close_A; static_pushed], 0%Z)).1 !! 0%nat = Some close_A) /\
  (invMass static_pushed = 0 ->
   (collide 0%nat 1%nat ([close_A; static_pushed], 0%Z)).1 !! 1%nat
   = Some static_pushed).
Proof.
  apply (collide_keeps_immovable 0%nat 1%nat [close_A; static_pushed] 0%Z
           close_A static_pushed); try reflexivity.
  - lia.
  - simpl. rewrite decide_True by lra. rewrite decide_False by lra. lra.
Defined.

(** Two objects at a non-zero distance are two objects. *)
Lemma apart_distinct a b h A B :
  h !! a = Some A -> h !! b = Some B ->
  Vec3.length (Vec3.sub (position A) (position B)) <> 0 -> a <> b.
Proof.
  intros Ha Hb Hd ->. rewrite Ha in Hb. injection Hb as ->.
  apply Hd. unfold Vec3.length, Vec3.sub; simpl.
  rewrite !Rminus_diag, !Rmult_0_l, !Rplus_0_l. apply sqrt_0.
Qed.

(** The separation of the centers after the two position assignments. *)
Lemma separation_after (pA pB : Vec3.t) (l rsum ia ib : R) :
  l <> 0 -> ia + ib <> 0 ->
  Vec3.sub
    (Vec3.add pA (Vec3.mul (Vec3.mul (Vec3.sub pA pB) (1 / l))
                    ((rsum - l) * ia / (ia + ib))))
    (Vec3.sub pB (Vec3.mul (Vec3.mul (Vec3.sub pA pB) (1 / l))
                    ((rsum - l) * ib / (ia + ib))))
  = Vec3.mul (Vec3.sub pA pB) (rsum / l).
Proof.
  intros Hl Hsum. destruct pA as [ax ay az], pB as [bx0 by0 bz0].
  apply vec3_eq; vec_unfold; field; done.
Qed.

(** X3. In exact arithmetic (numbers are reals here), the positional
    correction of the sphere response removes the whole penetration: two
    overlapping spheres, at least one of which can move, are resolved with
    the counter raised by one and end with their centers
    [radiusA + radiusB] apart.  In the doubles of the source the distance
    is this sum up to rounding only, so a pair can still overlap by a
    rounding error after its response. *)
Theorem spheres_touch_after_response a b h n A B (ra rb : R) :
  h !! a = Some A -> h !! b = Some B ->
  shape A = SphereShape ra -> shape B = SphereShape rb ->
  0 < Vec3.length (Vec3.sub (position A) (position B)) < ra + rb ->
  invMass A + invMass B <> 0 ->
  exists h' A' B',
    collide a b (h, n) = (h', (n + 1)%Z) /\
    h' !! a = Some A' /\ h' !! b = Some B' /\
    Vec3.length (Vec3.sub (position A') (position B')) = ra + rb.
Proof.
  intros Ha Hb HsA HsB Hd Hsum.
  assert (Hab : a <> b) by (eapply apart_distinct; [done..|lra]).
  set (d := Vec3.sub (position A) (position B)) in *.
  assert (Hl : Vec3.length d <> 0) by lra.
  unfold collide. rewrite Ha, Hb. unfold contact. rewrite HsA, HsB. fold d.
  rewrite decide_True by (split; lra).
  destruct (respond_distinct a b (Vec3.normalize d)
              (ra + rb - Vec3.length d) A B h Hab Ha Hb) as [HA' HB'].
  eexists _, _, _. split; [reflexivity|]. split; [exact HA'|]. split; [exact HB'|].
  cbn [position set_position].
  rewrite normalize_nonzero by done.
  pose proof (separation_after (position A) (position B) (Vec3.length d)
                (ra + rb) (invMass A) (invMass B) Hl Hsum) as Hsep.
  fold d in Hsep.
  rewrite Hsep, length_mul.
  rewrite Rabs_right.
  - field. done.
  - apply Rle_ge. apply Rmult_le_pos; [lra|].
    apply Rlt_le, Rinv_0_lt_compat. lra.
Qed.

Lemma spheres_touch_after_response_witness :
  exists h' A' B',
    collide 0%nat 1%nat ([head_on_A; head_on_B], 0%Z) = (h', (0 + 1)%Z) /\
    h' !! 0%nat = Some A' /\ h' !! 1%nat = Some B' /\
    Vec3.length (Vec3.sub (position A') (position B')) = 1 / 2 + 1 / 2.
Proof.
  apply (spheres_touch_after_response 0%nat 1%nat [head_on_A; head_on_B] 0%Z
           head_on_A head_on_B (1 / 2) (1 / 2)); try reflexivity.
  - rewrite head_on_separation, length_along_x, Rabs_right; lra.
  - simpl. rewrite !decide_True by lra. lra.
Defined.

(** X4. The restitution law: when a pair of two objects, at least one of
    which can move, has a contact, the response turns their relative
    velocity along the contact normal into minus the smaller restitution
    times what it was. *)
Theorem collide_restitution_law a b h n A B (norm : Vec3.t) (correction : R) :
  a <> b -> h !! a = Some A -> h !! b = Some B ->
  contact A B = Some (norm, correction) ->
  invMass A + invMass B <> 0 ->
  exists A' B',
    (collide a b (h, n)).1 !! a = Some A' /\
    (collide a b (h, n)).1 !! b = Some B' /\
    Vec3.dot (Vec3.sub (velocity A') (velocity B')) norm =
    - Rmin (restitution A) (restitution B) *
      Vec3.dot (Vec3.sub (velocity A) (velocity B)) norm.
Proof.
  intros Hab Ha Hb Hc Hsum.
  pose proof (contact_normal A B norm correction Hc) as Hnorm.
  unfold collide. rewrite Ha, Hb, Hc. cbn [fst].
  destruct (respond_distinct a b norm correction A B h Hab Ha Hb) as [-> ->].
  eexists _, _. split; [reflexivity|]. split; [reflexivity|].
  cbn [velocity set_position set_velocity].
  set (e := Rmin (restitution A) (restitution B)).
  set (sum := invMass A + invMass B) in *.
  set (rv := Vec3.dot (Vec3.sub (velocity A) (velocity B)) norm).
  assert (Hsplit :
    Vec3.dot
      (Vec3.sub
         (Vec3.add (velocity A) (Vec3.mul (Vec3.mul norm (- (1 + e) * rv / sum)) (invMass A)))
         (Vec3.sub (velocity B) (Vec3.mul (Vec3.mul norm (- (1 + e) * rv / sum)) (invMass B))))
      norm
    = rv + (- (1 + e) * rv / sum) * sum * Vec3.dot norm norm).
  { unfold rv, sum. generalize (- (1 + e) * rv / sum). intros J.
    destruct (velocity A), (velocity B), norm. vec_unfold. ring. }
  rewrite Hsplit.
  destruct (normalize_unit_or_zero (Vec3.sub (position A) (position B)))
    as [Hunit|Hzero]; rewrite <- Hnorm in *.
  - rewrite Hunit. field. done.
  - assert (Hrv : rv = 0).
    { unfold rv. rewrite Hzero. destruct (Vec3.sub _ _). vec_unfold. ring. }
    rewrite Hrv. field. done.
Qed.

Lemma collide_restitution_law_witness :
  exists A' B',
    (collide 0%nat 1%nat ([head_on_A; head_on_B], 0%Z)).1 !! 0%nat = Some A' /\
    (collide 0%nat 1%nat ([head_on_A; head_on_B], 0%Z)).1 !! 1%nat = Some B' /\
    Vec3.dot (Vec3.sub (velocity A') (velocity B'))
      (Vec3.normalize (Vec3.new (1 / 2) 0 0)) =
    - Rmin (restitution head_on_A) (restitution head_on_B) *
      Vec3.dot (Vec3.sub (velocity head_on_A) (velocity head_on_B))
        (Vec3.normalize (Vec3.new (1 / 2) 0 0)).
Proof.
  apply (collide_restitution_law 0%nat 1%nat [head_on_A; head_on_B] 0%Z
           head_on_A head_on_B (Vec3.normalize (Vec3.new (1 / 2) 0 0))
           (1 / 2 + 1 / 2 - Vec3.length (Vec3.new (1 / 2) 0 0)));
    try reflexivity.
  - lia.
  - unfold contact.
    change (shape head_on_A) with (SphereShape (1 / 2)).
    change (shape head_on_B) with (SphereShape (1 / 2)).
    rewrite head_on_separation.
    rewrite decide_True; [done|].
    rewrite length_along_x, Rabs_right; lra.
  - simpl. rewrite !decide_True by lra. lra.
Defined.

End Contact_physics.

(** ** The order of a pair does not matter *)

Section Pair_order.

Import RigidBody PhysicsWorld.
Implicit Types (h : Heap) (a b : ref) (A B : RigidBody.t) (n : Z).

Lemma length_sub_sym (p q : Vec3.t) :
  Vec3.length (Vec3.sub q p) = Vec3.length (Vec3.sub p q).
Proof.
  unfold Vec3.length, Vec3.sub; simpl. f_equal. ring.
Qed.

Lemma normalize_sub_sym (p q : Vec3.t) :
  Vec3.normalize (Vec3.sub q p) = Vec3.mul (Vec3.normalize (Vec3.sub p q)) (-1).
Proof.
  destruct (decide (Vec3.length (Vec3.sub p q) = 0)) as [H0|H0].
  - rewrite (normalize_zero_length (Vec3.sub p q)) by done.
    rewrite (normalize_zero_length (Vec3.sub q p))
      by (by rewrite (length_sub_sym p q)).
    apply vec3_eq; vec_unfold; ring.
  - rewrite (normalize_nonzero (Vec3.sub p q)) by done.
    rewrite (normalize_nonzero (Vec3.sub q p))
      by (by rewrite (length_sub_sym p q)).
    rewrite (length_sub_sym p q). apply vec3_eq; vec_unfold; ring.
Qed.

Lemma boxCollides_sym A B : boxCollides B A = boxCollides A B.
Proof.
  unfold boxCollides. destruct (shape A), (shape B); try done.
  rewrite (Rplus_comm size0 size).
  by rewrite !(Rabs_minus_sym (_ (position B)) (_ (position A))).
Qed.

Lemma cylinderCollides_sym A B : cylinderCollides B A = cylinderCollides A B.
Proof.
  unfold cylinderCollides. destruct (shape A), (shape B); try done.
  cbv zeta.
  rewrite (Rplus_comm radius0 radius), (Rplus_comm height0 height).
  rewrite (Rabs_minus_sym (Vec3.y (position B)) (Vec3.y (position A))).
  replace ((Vec3.x (position B) - Vec3.x (position A)) *
           (Vec3.x (position B) - Vec3.x (position A)) +
           (Vec3.z (position B) - Vec3.z (position A)) *
           (Vec3.z (position B) - Vec3.z (position A)))
    with ((Vec3.x (position A) - Vec3.x (position B)) *
          (Vec3.x (position A) - Vec3.x (position B)) +
          (Vec3.z (position A) - Vec3.z (position B)) *
          (Vec3.z (position A) - Vec3.z (position B))) by ring.
  done.
Qed.

(** The test of the pair taken the other way round succeeds in the same
    cases, with the opposite normal and the same correction. *)
Lemma contact_sym A B :
  contact B A =
  match contact A B with
  | Some (norm, correction) => Some (Vec3.mul norm (-1), correction)
  | None => None
  end.
Proof.
  unfold contact.
  destruct (shape A) as [ra|sa|ra ha|pa] eqn:HsA,
           (shape B) as [rb|sb|rb hb|pb] eqn:HsB; try done.
  - rewrite (length_sub_sym (position A) (position B)), (Rplus_comm rb ra).
    case_decide; [|done].
    by rewrite (normalize_sub_sym (position A) (position B)).
  - rewrite boxCollides_sym. destruct (boxCollides A B); [|done].
    by rewrite (normalize_sub_sym (position A) (position B)).
  - rewrite cylinderCollides_sym. destruct (cylinderCollides A B); [|done].
    by rewrite (normalize_sub_sym (position A) (position B)).
Qed.

Lemma swapped_impulse (vA vB norm : Vec3.t) (eA eB iA iB : R) :
  - (1 + Rmin eB eA) * Vec3.dot (Vec3.sub vB vA) (Vec3.mul norm (-1)) / (iB + iA)
  = - (1 + Rmin eA eB) * Vec3.dot (Vec3.sub vA vB) norm / (iA + iB).
Proof.
  rewrite (Rmin_comm eB eA), (Rplus_comm iB iA). f_equal. f_equal.
  destruct vA, vB, norm. vec_unfold. ring.
Qed.

Lemma sub_flipped (v norm : Vec3.t) (k : R) :
  Vec3.sub v (Vec3.mul (Vec3.mul norm (-1)) k) = Vec3.add v (Vec3.mul norm k).
Proof. apply vec3_eq; vec_unfold; ring. Qed.

Lemma add_flipped (v norm : Vec3.t) (k : R) :
  Vec3.add v (Vec3.mul (Vec3.mul norm (-1)) k) = Vec3.sub v (Vec3.mul norm k).
Proof. apply vec3_eq; vec_unfold; ring. Qed.

Lemma sub_flipped_impulse (v norm : Vec3.t) (J k : R) :
  Vec3.sub v (Vec3.mul (Vec3.mul (Vec3.mul norm (-1)) J) k)
  = Vec3.add v (Vec3.mul (Vec3.mul norm J) k).
Proof. apply vec3_eq; vec_unfold; ring. Qed.

Lemma add_flipped_impulse (v norm : Vec3.t) (J k : R) :
  Vec3.add v (Vec3.mul (Vec3.mul (Vec3.mul norm (-1)) J) k)
  = Vec3.sub v (Vec3.mul (Vec3.mul norm J) k).
Proof. apply vec3_eq; vec_unfold; ring. Qed.

(** X5. The outcome of a visit does not depend on which of the two
    objects comes first in the cell: visiting [(b, a)] leaves the same
    store and the same counter as visiting [(a, b)]. *)
Theorem collide_order_independent a b h n A B :
  a <> b -> h !! a = Some A -> h !! b = Some B ->
  collide b a (h, n) = collide a b (h, n).
Proof.
  intros Hab Ha Hb.
  assert (Hba : b <> a) by done.
  unfold collide. rewrite Ha, Hb, contact_sym.
  destruct (contact A B) as [[norm c]|]; [|done].
  f_equal. apply list_eq. intros i.
  destruct (respond_distinct a b norm c A B h Hab Ha Hb) as [HA HB].
  destruct (respond_distinct b a (Vec3.mul norm (-1)) c B A h Hba Hb Ha) as [HB' HA'].
  destruct (decide (i = a)) as [->|Hia]; [|destruct (decide (i = b)) as [->|Hib]].
  - rewrite HA, HA'. rewrite swapped_impulse.
    rewrite (Rplus_comm (invMass B) (invMass A)).
    by rewrite sub_flipped, sub_flipped_impulse.
  - rewrite HB, HB'. rewrite swapped_impulse.
    rewrite (Rplus_comm (invMass B) (invMass A)).
    by rewrite add_flipped, add_flipped_impulse.
  - by rewrite !respond_lookup_other.
Qed.

Lemma collide_order_independent_witness :
  collide 1%nat 0%nat ([head_on_A; head_on_B], 0%Z)
  = collide 0%nat 1%nat ([head_on_A; head_on_B], 0%Z).
Proof.
  apply (collide_order_independent 0%nat 1%nat [head_on_A; head_on_B] 0%Z
           head_on_A head_on_B); [lia|reflexivity..].
Defined.

End Pair_order.

(** ** Pairs the narrowphase never resolves *)

Section Never_resolved.

Import RigidBody PhysicsWorld.
Implicit Types (h : Heap) (a b r : ref) (s : state) (dt : R).

Lemma candidates_pairs (grid : Grid) a b :
  (a, b) ∈ candidates grid ->
  exists key cell, (key, cell) ∈ grid /\ (a, b) ∈ cell_pairs cell.
Proof.
  unfold candidates. intros Hin.
  apply list_elem_of_join in Hin as (ps & Hin & Hps).
  apply list_elem_of_fmap in Hps as ([key cell] & -> & Hc).
  by exists key, cell.
Qed.

(** The two entries of a visited pair stand at two places of the cell. *)
Lemma cell_pairs_NoDup (cell : list ref) a b :
  NoDup cell -> (a, b) ∈ cell_pairs cell -> a <> b.
Proof.
  induction cell as [|c rest IH]; simpl; intros Hnd Hin.
  - by apply elem_of_nil in Hin.
  - apply NoDup_cons in Hnd as [Hc Hnd].
    apply elem_of_app in Hin as [Hin|Hin]; [|by apply IH].
    apply list_elem_of_fmap in Hin as (b' & [= -> ->] & Hb).
    intros ->. done.
Qed.

(** A run in which no test succeeds changes nothing. *)
Lemma collide_all_unresolved (pairs : list (ref * ref)) h (n : Z) :
  resolved pairs h = [] -> collide_all pairs (h, n) = (h, n).
Proof.
  revert h. induction pairs as [|[a b] pairs IH]; intros h Hres; [done|].
  cbn [resolved] in Hres. destruct (hit h a b) eqn:Hhit; [done|].
  unfold collide_all in *. cbn [fold_left fst snd].
  rewrite (collide_miss a b h 0%Z Hhit) in Hres.
  rewrite (collide_miss a b h n Hhit). by apply IH.
Qed.

Lemma update_unresolved dt s :
  resolved_pairs dt s = [] ->
  update dt s = mkState (pre_narrowphase dt s) (set_collisionCount 0 (world s)).
Proof.
  intros Hres. rewrite update_stages, narrowphase_candidates.
  unfold resolved_pairs in Hres. by rewrite collide_all_unresolved.
Qed.

(** A resolved pair is a pair of two bodies that have one handled kind
    when [update] is called. *)
Lemma resolved_pairs_same_kind dt s a b :
  (a, b) ∈ resolved_pairs dt s ->
  exists A B, heap s !! a = Some A /\ heap s !! b = Some B /\
    shape_type (shape A) = shape_type (shape B) /\
    shape_type (shape A) <> CUSTOM.
Proof.
  intros Hab.
  apply resolved_same_kind in Hab as (A' & B' & Ha & Hb & Hk & Hc).
  pose proof (pre_narrowphase_identity_fields dt s) as Hid.
  assert (HA : identity_fields <$> heap s !! a = Some (identity_fields A')).
  { by rewrite <- list_lookup_fmap, <- Hid, list_lookup_fmap, Ha. }
  assert (HB : identity_fields <$> heap s !! b = Some (identity_fields B')).
  { by rewrite <- list_lookup_fmap, <- Hid, list_lookup_fmap, Hb. }
  destruct (heap s !! a) as [A|]; [|done].
  destruct (heap s !! b) as [B|]; [|done].
  unfold identity_fields in HA, HB.
  injection HA as HA _ _ _ _. injection HB as HB _ _ _ _.
  exists A, B. by rewrite HA, HB.
Qed.

(** X6. A listed body that is alone in its broadphase cell when
    [update] is called is never part of a tested pair: [update] leaves it
    as integration and the boundary step left it, however close other
    bodies are. *)
Theorem update_alone_in_cell dt s r (body : RigidBody.t) :
  heap s !! r = Some body ->
  filter (fun b => keyed (heap s) (cell_key (position body)) b) (bodies (world s)) = [r] ->
  heap (update dt s) !! r = pre_narrowphase dt s !! r.
Proof.
  intros Hr Halone. rewrite update_stages, narrowphase_candidates. cbn [heap].
  apply collide_all_lookup_other. intros a b Hab.
  apply candidates_pairs in Hab as (key & cell & Hcell & Hab).
  assert (Hin : r ∈ cell -> False).
  { intros Hrc. pose proof (broadphase_entry _ _ _ _ Hcell) as ->.
    pose proof Hrc as Hrc'.
    apply list_elem_of_filter in Hrc' as [Hk _].
    unfold keyed in Hk. rewrite Hr in Hk. apply bool_decide_unpack in Hk as <-.
    rewrite Halone in Hab. by apply elem_of_nil in Hab. }
  apply cell_pairs_elem in Hab as [Ha Hb].
  split; intros ->; by apply Hin.
Qed.

Lemma update_alone_in_cell_witness :
  heap (update (1 / 64) two_falling) !! 0%nat
  = pre_narrowphase (1 / 64) two_falling !! 0%nat.
Proof.
  apply (update_alone_in_cell (1 / 64) two_falling 0%nat falling_A); [reflexivity|].
  rewrite <- broadphase_cell, two_falling_grid.
  assert (HA : cell_key (position falling_A) = (0, 5, 0)%Z).
  { unfold cell_key. simpl. by rewrite !ZfloorZ. }
  rewrite HA. reflexivity.
Defined.

(** X7. When no two listed bodies share a broadphase cell at the
    call, [update] tests no pair at all: the result is the store after
    integration and the boundary step, with [collisionCount] 0. *)
Theorem update_all_cells_single dt s :
  (forall key,
     (length (filter (fun b => keyed (heap s) key b) (bodies (world s))) <= 1)%nat) ->
  update dt s = mkState (pre_narrowphase dt s) (set_collisionCount 0 (world s)).
Proof.
  intros Hsingle. apply update_unresolved. unfold resolved_pairs.
  assert (Hnone : candidates (broadphase (heap s) (bodies (world s))) = []).
  { apply elem_of_nil_inv. intros [a b] Hab.
    apply candidates_pairs in Hab as (key & cell & Hcell & Hab).
    pose proof (broadphase_entry _ _ _ _ Hcell) as Hc.
    specialize (Hsingle key). rewrite <- Hc in Hsingle.
    destruct cell as [|x [|y rest]]; simpl in *;
      [by apply elem_of_nil in Hab | by apply elem_of_nil in Hab | lia]. }
  by rewrite Hnone.
Qed.

Lemma update_all_cells_single_witness :
  update (1 / 64) two_falling
  = mkState (pre_narrowphase (1 / 64) two_falling)
      (set_collisionCount 0 (world two_falling)).
Proof.
  apply (update_all_cells_single (1 / 64) two_falling).
  intros key. rewrite <- broadphase_cell, two_falling_grid.
  unfold grid_cell. cbn [list_find fmap option_fmap option_map from_option default].
  simpl. repeat case_decide; simpl; lia.
Defined.

(** X8. Pairs of different shape kinds, and pairs with a compound
    shape, are skipped: when no two distinct listed bodies have one
    handled kind, a call of [update] resolves nothing, whatever overlaps. *)
Theorem update_mixed_kinds dt s :
  NoDup (bodies (world s)) ->
  (forall a b A B,
     a ∈ bodies (world s) -> b ∈ bodies (world s) -> a <> b ->
     heap s !! a = Some A -> heap s !! b = Some B ->
     shape_type (shape A) <> shape_type (shape B) \/ shape_type (shape A) = CUSTOM) ->
  update dt s = mkState (pre_narrowphase dt s) (set_collisionCount 0 (world s)).
Proof.
  intros Hnd Hkinds. apply update_unresolved.
  apply elem_of_nil_inv. intros [a b] Hab.
  destruct (resolved_pairs_same_kind dt s a b Hab) as (A & B & Ha & Hb & Hk & Hc).
  unfold resolved_pairs in Hab. apply resolved_elem in Hab.
  apply candidates_pairs in Hab as (key & cell & Hcell & Hab).
  assert (Hndc : NoDup cell).
  { rewrite (broadphase_entry _ _ _ _ Hcell). by apply NoDup_filter. }
  pose proof (cell_pairs_NoDup cell a b Hndc Hab) as Hne.
  apply cell_pairs_elem in Hab as [Hac Hbc].
  destruct (Hkinds a b A B) as [?|?]; try done;
    by eapply broadphase_refs.
Qed.

Lemma update_mixed_kinds_witness :
  update (1 / 64) mixed_pair
  = mkState (pre_narrowphase (1 / 64) mixed_pair)
      (set_collisionCount 0 (world mixed_pair)).
Proof.
  apply (update_mixed_kinds (1 / 64) mixed_pair).
  - change (NoDup [0%nat; 1%nat]). apply NoDup_cons. split.
    + intros H%list_elem_of_singleton. lia.
    + apply NoDup_singleton.
  - change (bodies (world mixed_pair)) with [0%nat; 1%nat].
    intros a b A B Ha Hb Hab HA HB. left.
    apply elem_of_cons in Ha as [->|Ha%list_elem_of_singleton];
      apply elem_of_cons in Hb as [->|Hb%list_elem_of_singleton];
      subst; try lia; injection HA as <-; injection HB as <-; discriminate.
Defined.

End Never_resolved.

(** ** The boundary step inside [update] *)

Section Boundary_step.

Import RigidBody PhysicsWorld.
Implicit Types (h : Heap) (r : ref) (s : state) (dt : R) (bs : Bounds).

(** In the store that a loop over the bodies leaves, a listed body is the
    result of the loop body. *)
Lemma for_bodies_lookup_listed (f : RigidBody.t -> RigidBody.t) (l : list ref) h r y :
  r ∈ l -> for_bodies f l h !! r = Some y -> exists x, y = f x.
Proof.
  unfold for_bodies. revert h.
  induction l as [|b l IH]; intros h Hr Hy; [by apply elem_of_nil in Hr|].
  cbn [fold_left] in Hy.
  destruct (decide (r ∈ l)) as [Hin|Hnin]; [by eapply IH|].
  apply elem_of_cons in Hr as [->|?]; [|done].
  pose proof (for_bodies_lookup_other f l (alter f b h) b Hnin) as Hother.
  unfold for_bodies in Hother. rewrite Hother, list_lookup_alter_eq in Hy.
  destruct (h !! b) as [x|]; [|done]. injection Hy as <-. by exists x.
Qed.

(** X9. When the narrowphase of [update] starts, every listed body
    that is not larger than the world lies within the bounds. *)
Theorem pre_narrowphase_within_bounds dt s r (y : RigidBody.t) :
  r ∈ bodies (world s) ->
  pre_narrowphase dt s !! r = Some y ->
  fits (bounds (world s)) y ->
  within_bounds (bounds (world s)) y.
Proof.
  intros Hr Hy Hfit. unfold pre_narrowphase in Hy. cbv zeta in Hy.
  apply for_bodies_lookup_listed in Hy as (x & ->); [|done].
  apply resolve_bounds_within.
  unfold fits in *. by rewrite resolve_bounds_shape in Hfit.
Qed.

Lemma pre_narrowphase_within_bounds_witness :
  within_bounds (bounds (world two_falling))
    (apply_and_integrate (Vec3.new 0 (-10) 0) (1 / 64) falling_A).
Proof.
  apply (pre_narrowphase_within_bounds (1 / 64) two_falling 0%nat).
  - apply list_elem_of_here.
  - by rewrite two_falling_pre_narrowphase.
  - unfold fits. cbv zeta. unfold falling_A. rewrite free_fall_shape. simpl. lra.
Defined.

(** A component scaled by a factor between -1 and 1 does not grow. *)
Lemma scaled_sq (v k : R) : -1 <= k <= 1 -> (v * k) * (v * k) <= v * v.
Proof.
  intros Hk.
  assert (Hkk : k * k <= 1) by nra.
  pose proof (Rle_0_sqr v) as Hv. unfold Rsqr in Hv.
  replace (v * k * (v * k)) with (v * v * (k * k)) by ring. nra.
Qed.

Lemma slower_trans (b1 b2 b3 : RigidBody.t) : slower b1 b2 -> slower b2 b3 -> slower b1 b3.
Proof. intros H12 H23 axis. specialize (H12 axis). specialize (H23 axis). lra. Qed.

Lemma ground_slower hs (b : RigidBody.t) :
  0 <= restitution b <= 1 -> 0 <= friction b <= 1 -> slower b (ground hs b).
Proof.
  intros Hr Hf axis. unfold ground. case_decide; [|lra].
  pose proof (scaled_sq (Vec3.x (velocity b)) (1 - friction b)).
  pose proof (scaled_sq (Vec3.z (velocity b)) (1 - friction b)).
  pose proof (scaled_sq (Vec3.y (velocity b)) (- restitution b)).
  unfold vel, set_vel, set_pos. destruct axis; cbn; nra.
Qed.

Lemma wall_slower bs hs wall_axis (b : RigidBody.t) :
  0 <= restitution b <= 1 -> slower b (wall bs hs wall_axis b).
Proof.
  intros Hr axis. unfold wall.
  pose proof (scaled_sq (Vec3.x (velocity b)) (- restitution b)).
  pose proof (scaled_sq (Vec3.y (velocity b)) (- restitution b)).
  pose proof (scaled_sq (Vec3.z (velocity b)) (- restitution b)).
  pose proof (scaled_sq (Vec3.x (velocity b)) (restitution b * restitution b)).
  pose proof (scaled_sq (Vec3.y (velocity b)) (restitution b * restitution b)).
  pose proof (scaled_sq (Vec3.z (velocity b)) (restitution b * restitution b)).
  repeat case_decide; unfold vel, set_vel, set_pos;
    destruct wall_axis, axis; cbn; nra.
Qed.

Lemma ceiling_slower bs hs (b : RigidBody.t) :
  0 <= restitution b <= 1 -> slower b (ceiling bs hs b).
Proof.
  intros Hr axis. unfold ceiling. case_decide; [|lra].
  pose proof (scaled_sq (Vec3.y (velocity b)) (- restitution b)).
  unfold vel, set_vel, set_pos. destruct axis; cbn; nra.
Qed.

Lemma identity_restitution (b b' : RigidBody.t) :
  identity_fields b' = identity_fields b ->
  restitution b' = restitution b /\ friction b' = friction b.
Proof. unfold identity_fields. by intros [= _ _ _ -> ->]. Qed.

(** X10. With restitution and friction between 0 and 1, the boundary
    step never makes a velocity component larger in magnitude, so it never
    raises the speed (nor the kinetic energy) of a body. *)
Theorem resolve_bounds_never_speeds_up bs (b : RigidBody.t) :
  0 <= restitution b <= 1 -> 0 <= friction b <= 1 ->
  slower b (resolve_bounds bs b) /\ speed_sq (resolve_bounds bs b) <= speed_sq b.
Proof.
  intros Hr Hf.
  assert (Hslower : slower b (resolve_bounds bs b)).
  { unfold resolve_bounds. cbv zeta.
    set (hs := halfSize (shape b)).
    set (b1 := ground hs b).
    set (b2 := wall bs hs Vec3.X b1).
    set (b3 := wall bs hs Vec3.Z b2).
    destruct (identity_restitution b b1 (ground_identity_fields hs b)) as [Hr1 _].
    destruct (identity_restitution b1 b2 (wall_identity_fields bs hs Vec3.X b1)) as [Hr2 _].
    destruct (identity_restitution b2 b3 (wall_identity_fields bs hs Vec3.Z b2)) as [Hr3 _].
    apply (slower_trans b b1); [by apply ground_slower|].
    apply (slower_trans b1 b2); [apply wall_slower; lra|].
    apply (slower_trans b2 b3); [apply wall_slower; lra|].
    apply ceiling_slower. lra. }
  split; [done|].
  pose proof (Hslower Vec3.X) as Hx. pose proof (Hslower Vec3.Y) as Hy.
  pose proof (Hslower Vec3.Z) as Hz.
  unfold speed_sq, Vec3.dot. unfold vel in *. simpl in *. lra.
Qed.

Lemma resolve_bounds_never_speeds_up_witness :
  slower sunk_sphere (resolve_bounds (mkBounds 20 20 20) sunk_sphere) /\
  speed_sq (resolve_bounds (mkBounds 20 20 20) sunk_sphere) <= speed_sq sunk_sphere.
Proof.
  apply (resolve_bounds_never_speeds_up (mkBounds 20 20 20) sunk_sphere);
    simpl; lra.
Defined.

End Boundary_step.

(** ** Gravity and integration inside [update] *)

Section Gravity.

Import RigidBody PhysicsWorld.
Implicit Types (b : RigidBody.t) (g : Vec3.t) (dt : R).

Lemma integrate_velocity dt b :
  invMass b <> 0 ->
  velocity (integrate dt b) =
  Vec3.add (velocity b) (Vec3.mul (force b) (dt * invMass b)).
Proof.
  intros H0. unfold integrate. rewrite decide_False by done.
  cbn [set_force velocity]. unfold sync_mesh.
  by destruct (mesh _).
Qed.

(** X11. For a body of positive mass, one round of the gravity and
    integration loop is a step of semi-implicit Euler with the
    acceleration [force / mass + gravity]: the mass cancels out of the
    gravity term, the new position uses the new velocity, and the
    accumulated force is spent. *)
Theorem apply_and_integrate_acceleration g dt b :
  mass_consistent b -> mass b > 0 ->
  velocity (apply_and_integrate g dt b) =
    Vec3.add (velocity b) (Vec3.mul (Vec3.add (Vec3.mul (force b) (1 / mass b)) g) dt) /\
  position (apply_and_integrate g dt b) =
    Vec3.add (position b) (Vec3.mul (velocity (apply_and_integrate g dt b)) dt) /\
  force (apply_and_integrate g dt b) = Vec3.zero.
Proof.
  intros Hc Hm. unfold mass_consistent in Hc. rewrite decide_True in Hc by done.
  assert (Hi : invMass (applyForce (Vec3.mul g (mass b)) b) <> 0).
  { cbn [applyForce set_force invMass]. rewrite Hc.
    apply Rgt_not_eq. unfold Rdiv. rewrite Rmult_1_l. by apply Rinv_0_lt_compat. }
  unfold apply_and_integrate.
  rewrite integrate_velocity, integrate_position, integrate_dynamic_force by done.
  cbn [applyForce set_force velocity position force invMass]. rewrite Hc.
  split; [|done].
  destruct (velocity b) as [vx vy vz], (force b) as [fx fy fz], g as [gx gy gz].
  apply vec3_eq; vec_unfold; field; lra.
Qed.

Lemma apply_and_integrate_acceleration_witness :
  velocity (apply_and_integrate (Vec3.new 0 (-10) 0) (1 / 64) orange_box) =
    Vec3.add (velocity orange_box)
      (Vec3.mul (Vec3.add (Vec3.mul (force orange_box) (1 / mass orange_box))
                   (Vec3.new 0 (-10) 0)) (1 / 64)) /\
  position (apply_and_integrate (Vec3.new 0 (-10) 0) (1 / 64) orange_box) =
    Vec3.add (position orange_box)
      (Vec3.mul (velocity (apply_and_integrate (Vec3.new 0 (-10) 0) (1 / 64) orange_box))
         (1 / 64)) /\
  force (apply_and_integrate (Vec3.new 0 (-10) 0) (1 / 64) orange_box) = Vec3.zero.
Proof.
  apply (apply_and_integrate_acceleration (Vec3.new 0 (-10) 0) (1 / 64) orange_box).
  - reflexivity.
  - simpl. lra.
Defined.

(** X12. A body of zero or negative mass goes through any number of
    rounds of the gravity and integration loop without moving; all that
    changes is its accumulated force, which grows by [gravity * mass] in
    every round (by nothing when the mass is 0) and is never reset. *)
Theorem static_body_rounds g dt b (rounds : nat) :
  mass_consistent b -> mass b <= 0 ->
  Nat.iter rounds (apply_and_integrate g dt) b =
  set_force (Vec3.add (force b) (Vec3.mul (Vec3.mul g (mass b)) (INR rounds))) b.
Proof.
  intros Hc Hm. pose proof (nonpositive_mass_static b Hc Hm) as H0.
  induction rounds as [|k IH].
  - unfold Nat.iter; cbn [nat_rect]. destruct b as [p v [fx fy fz] s m im me r fr av o tq i ii].
    unfold set_force; simpl. f_equal. apply vec3_eq; vec_unfold; ring.
  - rewrite Nat.iter_succ, IH. unfold apply_and_integrate.
    rewrite integrate_static by done. rewrite S_INR.
    destruct b as [p v [fx fy fz] s m im me r fr av o tq i ii].
    destruct g as [gx gy gz].
    unfold applyForce, set_force; simpl. f_equal. apply vec3_eq; vec_unfold; ring.
Qed.

Lemma static_body_rounds_witness :
  Nat.iter 3 (apply_and_integrate (Vec3.new 0 (-10) 0) (1 / 64)) negative_mass_box =
  set_force
    (Vec3.add (force negative_mass_box)
       (Vec3.mul (Vec3.mul (Vec3.new 0 (-10) 0) (mass negative_mass_box)) (INR 3)))
    negative_mass_box.
Proof.
  apply (static_body_rounds (Vec3.new 0 (-10) 0) (1 / 64) negative_mass_box 3).
  - reflexivity.
  - simpl. lra.
Defined.

End Gravity.

(** ** Unit vectors *)

(** X13. [normalize] returns a vector of length 1 on every vector
    of non-zero length and a vector of length 0 otherwise, and normalizing
    twice is normalizing once. *)
Theorem normalize_length_idempotent (v : Vec3.t) :
  (Vec3.length v <> 0 -> Vec3.length (Vec3.normalize v) = 1) /\
  (Vec3.length v = 0 -> Vec3.length (Vec3.normalize v) = 0) /\
  Vec3.normalize (Vec3.normalize v) = Vec3.normalize v.
Proof.
  assert (Hzero : Vec3.length (Vec3.new 0 0 0) = 0).
  { rewrite length_along_x. apply Rabs_R0. }
  assert (Hunit : Vec3.length v <> 0 -> Vec3.length (Vec3.normalize v) = 1).
  { intros Hl. rewrite normalize_nonzero, length_mul by done.
    pose proof (length_nonneg v) as Hpos.
    rewrite Rabs_right.
    - field. done.
    - apply Rle_ge. unfold Rdiv. rewrite Rmult_1_l.
      apply Rlt_le, Rinv_0_lt_compat. lra. }
  split; [done|]. split.
  - intros Hl. by rewrite normalize_zero_length.
  - destruct (decide (Vec3.length v = 0)) as [Hl|Hl].
    + rewrite (normalize_zero_length v Hl). by apply normalize_zero_length.
    + rewrite (normalize_nonzero (Vec3.normalize v)); rewrite (Hunit Hl); [|lra].
      apply vec3_eq; vec_unfold; field.
Qed.

(** ** The list of bodies *)

Section Body_list.

Import PhysicsWorld.
Implicit Types (this : PhysicsWorld.t) (b : ref) (l : list ref).

Lemma remove_first_absent b l : b ∉ l -> remove_first b l = l.
Proof.
  induction l as [|r l IH]; [done|]. intros [Hne Hl]%not_elem_of_cons.
  cbn [remove_first]. rewrite decide_False by done. by rewrite IH.
Qed.

Lemma remove_first_split b l1 l2 :
  b ∉ l1 -> remove_first b (l1 ++ b :: l2) = l1 ++ l2.
Proof.
  induction l1 as [|r l1 IH]; intros Hl1.
  - cbn. by rewrite decide_True.
  - apply not_elem_of_cons in Hl1 as [Hne Hl1].
    cbn [app remove_first]. rewrite decide_False by done. by rewrite IH.
Qed.

(** X14. Removing a body that is not in the list changes
    nothing of the world, and removing a body just added to a world that
    did not hold it gives the world back. *)
Theorem removeBody_absent this b :
  b ∉ bodies this ->
  removeBody b this = this /\ removeBody b (addBody b this) = this.
Proof.
  intros Hb. destruct this as [bs g bd c]. unfold removeBody, addBody; simpl in *.
  split; f_equal.
  - by apply remove_first_absent.
  - rewrite <- (app_nil_r bs) at 2. by apply remove_first_split.
Qed.

Lemma removeBody_absent_witness :
  removeBody 2%nat world_of_two = world_of_two /\
  removeBody 2%nat (addBody 2%nat world_of_two) = world_of_two.
Proof.
  apply (removeBody_absent world_of_two 2%nat).
  change (bodies world_of_two) with [0%nat; 1%nat].
  intros [H|[H|H]%elem_of_cons]%elem_of_cons; [lia | lia | by apply elem_of_nil in H].
Defined.

(** X15. [removeBody] takes out the first occurrence of the
    body and nothing else: the entries before and after it keep their
    order, later occurrences of the same body stay, and gravity, bounds
    and counter are untouched. *)
Theorem removeBody_first_occurrence this b l1 l2 :
  bodies this = l1 ++ b :: l2 -> b ∉ l1 ->
  removeBody b this = set_bodies (l1 ++ l2) this.
Proof.
  intros Hbs Hb. unfold removeBody, set_bodies. f_equal.
  rewrite Hbs. by apply remove_first_split.
Qed.

Lemma removeBody_first_occurrence_witness :
  removeBody 0%nat listed_twice = set_bodies ([] ++ [1%nat; 0%nat]) listed_twice.
Proof.
  apply (removeBody_first_occurrence listed_twice 0%nat [] [1%nat; 0%nat]).
  - reflexivity.
  - apply not_elem_of_nil.
Defined.

End Body_list.

(** ** How many pairs a step can resolve *)

Section Count_bound.

Import PhysicsWorld.
Implicit Types (h : Heap) (grid : Grid) (cell : list ref).

Lemma length_cell_pairs cell :
  (2 * length (cell_pairs cell) + length cell = length cell * length cell)%nat.
Proof.
  induction cell as [|a rest IH]; [done|].
  cbn [cell_pairs]. rewrite length_app, length_fmap. cbn [length]. lia.
Qed.

Lemma length_candidates grid :
  (2 * length (candidates grid) + grid_total grid <= grid_total grid * grid_total grid)%nat.
Proof.
  induction grid as [|[key cell] grid IH]; [done|].
  change (candidates ((key, cell) :: grid)) with (cell_pairs cell ++ candidates grid).
  change (grid_total ((key, cell) :: grid)) with (length cell + grid_total grid)%nat.
  rewrite length_app.
  pose proof (length_cell_pairs cell) as Hc.
  assert (Hexp : ((length cell + grid_total grid) * (length cell + grid_total grid)
                  = length cell * length cell + 2 * (length cell * grid_total grid)
                    + grid_total grid * grid_total grid)%nat) by ring.
  rewrite Hexp. lia.
Qed.

Lemma grid_push_total key b grid : grid_total (grid_push key b grid) = S (grid_total grid).
Proof.
  induction grid as [|[k cell] grid IH]; [done|].
  cbn [grid_push]. case_decide.
  - change (grid_total ((k, cell ++ [b]) :: grid))
      with (length (cell ++ [b]) + grid_total grid)%nat.
    change (grid_total ((k, cell) :: grid)) with (length cell + grid_total grid)%nat.
    rewrite length_app. cbn [length]. lia.
  - change (grid_total ((k, cell) :: grid_push key b grid))
      with (length cell + grid_total (grid_push key b grid))%nat.
    change (grid_total ((k, cell) :: grid)) with (length cell + grid_total grid)%nat.
    rewrite IH. lia.
Qed.

Lemma grid_from_total h (l : list ref) grid :
  (grid_total (grid_from h l grid) <= grid_total grid + length l)%nat.
Proof.
  unfold grid_from. revert grid.
  induction l as [|b l IH]; intros grid; cbn [fold_left length]; [lia|].
  etrans; [apply IH|]. destruct (h !! b).
  - rewrite grid_push_total. lia.
  - lia.
Qed.

Lemma resolved_length (pairs : list (ref * ref)) h :
  (length (resolved pairs h) <= length pairs)%nat.
Proof.
  revert h. induction pairs as [|[a b] pairs IH]; intros h; [done|].
  cbn [resolved]. destruct (hit h a b); cbn [length].
  - specialize (IH (collide a b (h, 0%Z)).1). lia.
  - specialize (IH (collide a b (h, 0%Z)).1). lia.
Qed.

(** X16. After [update], the counter is at most the number of pairs
    within the cells of the grid, hence at most [n (n - 1) / 2] for [n]
    listed bodies; and it is never negative. *)
Theorem collisionCount_bounds (dt : R) (s : state) :
  (0 <= collisionCount (world (update dt s))
     <= Z.of_nat (length (candidates (broadphase (heap s) (bodies (world s))))))%Z /\
  (2 * collisionCount (world (update dt s))
     <= Z.of_nat (length (bodies (world s))) * (Z.of_nat (length (bodies (world s))) - 1))%Z.
Proof.
  rewrite update_count. unfold resolved_pairs.
  set (grid := broadphase (heap s) (bodies (world s))).
  pose proof (resolved_length (candidates grid) (pre_narrowphase dt s)) as Hres.
  pose proof (length_candidates grid) as Hcand.
  pose proof (grid_from_total (heap s) (bodies (world s)) []) as Htotal.
  change (grid_from (heap s) (bodies (world s)) []) with grid in Htotal.
  change (grid_total []) with 0%nat in Htotal.
  split; [lia|].
  assert (Hmono : (grid_total grid * grid_total grid + length (bodies (world s))
                   <= length (bodies (world s)) * length (bodies (world s))
                      + grid_total grid)%nat).
  { generalize dependent (grid_total grid). intros T _ HT.
    generalize dependent (length (bodies (world s))). intros N HT.
    destruct (Nat.le_exists_sub T N) as (k & -> & _); [lia|].
    assert (Hk : (k <= k * k)%nat) by (destruct k; lia).
    assert (Hexp : ((k + T) * (k + T) = k * k + 2 * (k * T) + T * T)%nat) by ring.
    rewrite Hexp. lia. }
  lia.
Qed.

End Count_bound.

(** ** Saving and importing a scene *)

Section Scene_handlers.

Import RigidBody PhysicsWorld.
Implicit Types (h : Heap) (s : state) (data : list SceneRecord)
  (new : list RigidBody.t) (l : list ref).

Lemma import_loop_built data new s :
  Forall2 (fun obj rb => import_record obj = Built rb) data new ->
  import_loop data s =
  Completed
    (mkState (heap s ++ new)
       (set_bodies (bodies (world s) ++ seq (length (heap s)) (length new)) (world s))).
Proof.
  intros Hall. revert s. induction Hall as [|obj rb data new Hobj Hall IH]; intros s.
  - cbn [import_loop length seq]. rewrite !app_nil_r. by destruct s as [h []].
  - cbn [import_loop]. rewrite Hobj, IH. cbn [heap world addBody bodies set_bodies
      gravity bounds collisionCount length seq].
    rewrite length_app. cbn [length].
    rewrite <- !app_assoc. cbn [app].
    by replace (length (heap s) + 1)%nat with (S (length (heap s))) by lia.
Qed.

Lemma import_loop_completed data s s' :
  import_loop data s = Completed s' ->
  exists new, Forall2 (fun obj rb => import_record obj = Built rb) data new.
Proof.
  revert s. induction data as [|obj data IH]; intros s Hrun.
  - exists []. constructor.
  - cbn [import_loop] in Hrun. destruct (import_record obj) as [rb| |] eqn:Hobj; try done.
    apply IH in Hrun as (new & Hall). exists (rb :: new). by constructor.
Qed.

(** The fresh references find the new bodies. *)
Lemma listed_imported s new : listed (imported_state s new) = new.
Proof.
  unfold listed, imported_state. cbn [heap world bodies set_bodies].
  generalize (heap s). intros h. revert h.
  induction new as [|rb new IH]; intros h; [done|].
  cbn [length seq omap list_omap].
  rewrite lookup_app_r by lia. rewrite Nat.sub_diag. cbn [lookup list_lookup].
  f_equal. specialize (IH (h ++ [rb])).
  rewrite length_app, <- app_assoc in IH. cbn [length app] in IH.
  by replace (length h + 1)%nat with (S (length h)) in IH by lia.
Qed.

(** X17. An import that runs to its end puts the imported bodies, one
    per record and in the order of the records, in place of the old list:
    they are fresh objects, the objects of the old scene stay in the store
    untouched but unlisted, and gravity, bounds and the collision counter
    are kept. *)
Theorem import_scene_replaces data s s' :
  import_scene data s = Completed s' ->
  exists new,
    Forall2 (fun obj rb => import_record obj = Built rb) data new /\
    s' = imported_state s new /\
    listed s' = new /\
    length (bodies (world s')) = length data /\
    (forall b, (b < length (heap s))%nat -> heap s' !! b = heap s !! b /\ b ∉ bodies (world s')) /\
    gravity (world s') = gravity (world s) /\
    bounds (world s') = bounds (world s) /\
    collisionCount (world s') = collisionCount (world s).
Proof.
  intros Hrun. unfold import_scene in Hrun.
  destruct (import_loop_completed _ _ _ Hrun) as (new & Hall).
  rewrite (import_loop_built _ new _ Hall) in Hrun.
  cbn [heap world bodies set_bodies gravity bounds collisionCount app] in Hrun.
  injection Hrun as <-.
  exists new. split; [done|]. split; [done|]. split; [apply listed_imported|].
  cbn [heap world bodies set_bodies gravity bounds collisionCount].
  split; [|split; [|done]].
  - rewrite length_seq. symmetry. by eapply Forall2_length.
  - intros b Hb. split; [by apply lookup_app_l|].
    intros Hin%elem_of_seq. lia.
Qed.

Lemma import_scene_replaces_witness :
  exists new,
    Forall2 (fun obj rb => import_record obj = Built rb) [sphere_record] new /\
    imported_state two_falling [imported_sphere] = imported_state two_falling new /\
    listed (imported_state two_falling [imported_sphere]) = new /\
    length (bodies (world (imported_state two_falling [imported_sphere])))
    = length [sphere_record] /\
    (forall b, (b < length (heap two_falling))%nat ->
       heap (imported_state two_falling [imported_sphere]) !! b = heap two_falling !! b /\
       b ∉ bodies (world (imported_state two_falling [imported_sphere]))) /\
    gravity (world (imported_state two_falling [imported_sphere]))
    = gravity (world two_falling) /\
    bounds (world (imported_state two_falling [imported_sphere]))
    = bounds (world two_falling) /\
    collisionCount (world (imported_state two_falling [imported_sphere]))
    = collisionCount (world two_falling).
Proof.
  apply (import_scene_replaces [sphere_record] two_falling
           (imported_state two_falling [imported_sphere])).
  reflexivity.
Defined.

(** A record whose type tag is none of the three handled ones makes the
    import of that record throw. *)
Lemma import_record_unknown_type (obj : SceneRecord) :
  rec_type obj <> 0%Z -> rec_type obj <> 1%Z -> rec_type obj <> 2%Z ->
  import_record obj = Raised TypeError.
Proof.
  intros H0 H1 H2. unfold import_record. cbn [type_code].
  by rewrite !decide_False by done.
Qed.

(** X18. When a record has an unknown type tag, the import
    throws at that record: the records before it have been imported, the
    records after it are never looked at, and the old list of bodies is
    already gone. *)
Theorem import_scene_aborts before obj after s s1 :
  import_scene before s = Completed s1 ->
  rec_type obj <> 0%Z -> rec_type obj <> 1%Z -> rec_type obj <> 2%Z ->
  import_scene (before ++ obj :: after) s = Aborted TypeError s1.
Proof.
  intros Hrun H0 H1 H2. unfold import_scene in *.
  revert Hrun. generalize (mkState (heap s) (set_bodies [] (world s))). intros s0.
  revert s0. induction before as [|r before IH]; intros s0 Hrun.
  - cbn [app import_loop] in *. injection Hrun as <-.
    by rewrite import_record_unknown_type.
  - cbn [app import_loop] in *. destruct (import_record r); try done. by apply IH.
Qed.

Lemma import_scene_aborts_witness :
  import_scene ([sphere_record] ++ compound_record :: [sphere_record]) two_falling
  = Aborted TypeError (imported_state two_falling [imported_sphere]).
Proof.
  apply (import_scene_aborts [sphere_record] compound_record [sphere_record]
           two_falling (imported_state two_falling [imported_sphere]));
    [reflexivity | simpl; lia..].
Defined.

(** Saving a body and importing its record, as one step. *)
Lemma round_trip_body (b : RigidBody.t) :
  is_Some (mesh b) -> survives_round_trip (shape b) ->
  exists r b',
    save_record b = Normal r /\ import_record r = Built b' /\
    saved_fields b' = saved_fields b.
Proof.
  intros [m Hm] Hs. unfold save_record. rewrite Hm. eexists.
  edestruct import_record_built as (b' & Hb' & Hsh & Hp & Hv & Ha & Hma & Hf & Hr);
    [| exists b'; split; [reflexivity|]; split; [exact Hb'|];
       unfold saved_fields; rewrite Hsh, Hp, Hv, Ha, Hma, Hf, Hr; reflexivity].
  destruct (shape b) as [r|sz|r ht|parts]; cbn in *.
  - left. split; [done|]. by exists r.
  - right. left. split; [done|]. exists sz. by rewrite decide_False.
  - right. right. split; [done|]. exists r, ht. by rewrite decide_False.
  - done.
Qed.

Lemma save_all_round_trip h l data :
  save_all h l = Normal data ->
  Forall (fun b => survives_round_trip (shape b)) (omap (fun b => h !! b) l) ->
  exists new,
    Forall2 (fun obj rb => import_record obj = Built rb) data new /\
    saved_fields <$> new = saved_fields <$> omap (fun b => h !! b) l.
Proof.
  revert data. induction l as [|b l IH]; intros data Hsave Hsurv.
  - cbn in Hsave. injection Hsave as <-. exists []. split; [constructor|done].
  - cbn [save_all] in Hsave. cbn [omap list_omap] in *.
    destruct (h !! b) as [body|] eqn:Hb; [|done].
    apply Forall_cons in Hsurv as [Hbody Hsurv].
    destruct (save_record body) as [r|e] eqn:Hr; [|done].
    destruct (save_all h l) as [rs|e] eqn:Hrs; [|done].
    injection Hsave as <-.
    destruct (IH rs eq_refl Hsurv) as (new & Hall & Hfields).
    assert (Hmesh : is_Some (mesh body)).
    { unfold save_record in Hr. destruct (mesh body); [by eexists | done]. }
    destruct (round_trip_body body Hmesh Hbody) as (r' & b' & Hr' & Hb' & Hsaved).
    rewrite Hr in Hr'. injection Hr' as <-.
    exists (b' :: new). split; [by constructor|].
    cbn [fmap list_fmap]. by rewrite Hsaved, Hfields.
Qed.

(** X19. When the scene can be saved and every listed body
    is a sphere, a box of non-zero edge or a cylinder of non-zero height,
    importing the saved records runs to its end and rebuilds the scene:
    as many bodies, in the same order, each with the shape, position,
    velocity, angular velocity, mass, friction and restitution of its
    original. *)
Theorem scene_round_trip s data :
  save_scene s = Normal data ->
  Forall (fun b => survives_round_trip (shape b)) (listed s) ->
  exists new,
    import_scene data s = Completed (imported_state s new) /\
    listed (imported_state s new) = new /\
    saved_fields <$> new = saved_fields <$> listed s.
Proof.
  intros Hsave Hsurv.
  destruct (save_all_round_trip _ _ _ Hsave Hsurv) as (new & Hall & Hfields).
  exists new. split; [|split; [apply listed_imported | done]].
  unfold import_scene. by rewrite (import_loop_built _ new _ Hall).
Qed.

Lemma scene_round_trip_witness :
  exists new,
    import_scene [orange_box_record] one_box = Completed (imported_state one_box new) /\
    listed (imported_state one_box new) = new /\
    saved_fields <$> new = saved_fields <$> listed one_box.
Proof.
  apply (scene_round_trip one_box [orange_box_record]).
  - unfold save_scene, one_box. cbn [heap world bodies addBody PhysicsWorld.constructor app].
    cbn [save_all lookup list_lookup]. unfold save_record.
    cbn [orange_box mesh RigidBody.constructor set_velocity shape prop_size prop_radius
         js_or].
    rewrite decide_False by lra. reflexivity.
  - repeat constructor. simpl. lra.
Defined.

(** X20. Saving is all or nothing: on a state whose list points into
    the store, the save handler completes, with one record per listed
    body in order, exactly when every listed body has a mesh; a single
    body without one makes the whole call throw. *)
Theorem save_scene_all_or_nothing s :
  well_formed s ->
  (Forall (fun b => is_Some (mesh b)) (listed s) ->
     exists data, save_scene s = Normal data /\
       Forall2 (fun b r => save_record b = Normal r) (listed s) data) /\
  (~ Forall (fun b => is_Some (mesh b)) (listed s) -> save_scene s = Throw TypeError).
Proof.
  unfold well_formed, save_scene, listed.
  generalize (heap s) (bodies (world s)). intros h l Hwf.
  induction Hwf as [|b l Hb Hwf [IHok IHthrow]].
  - split; [|intros Hn; destruct Hn; constructor].
    intros _. exists []. split; [done | constructor].
  - apply lookup_lt_is_Some in Hb as [body Hbody].
    cbn [save_all omap list_omap]. rewrite Hbody. cbn [option_bind mbind].
    split.
    + intros [[m Hm] Hall]%Forall_cons.
      destruct (IHok Hall) as (data & Hdata & Hrecs).
      unfold save_record at 1. rewrite Hm, Hdata.
      eexists. split; [reflexivity|]. constructor; [|done].
      unfold save_record. by rewrite Hm.
    + intros Hn. unfold save_record at 1.
      destruct (mesh body) as [m|] eqn:Hm; [|done].
      destruct (decide (Forall (fun b => is_Some (mesh b)) (omap (fun b => h !! b) l)))
        as [Hall|Hnall].
      * destruct Hn. constructor; [by eexists | done].
      * by rewrite (IHthrow Hnall).
Qed.

Lemma save_scene_all_or_nothing_witness :
  (Forall (fun b => is_Some (mesh b)) (listed one_box) ->
     exists data, save_scene one_box = Normal data /\
       Forall2 (fun b r => save_record b = Normal r) (listed one_box) data) /\
  (~ Forall (fun b => is_Some (mesh b)) (listed one_box) ->
   save_scene one_box = Throw TypeError).
Proof.
  apply (save_scene_all_or_nothing one_box).
  repeat constructor.
Defined.

End Scene_handlers.

(** ** Spawning and shooting *)

Section Spawning.

Import RigidBody PhysicsWorld.
Implicit Types (s : state) (random : nat -> R).

Lemma find_shape_known (shapeName : string) :
  match find_shape shapeName spawnShapes with
  | Some type => type <> CUSTOM /\ (shapeName = "Sphere" \/ shapeName = "Box" \/ shapeName = "Cylinder")%string
  | None => (shapeName <> "Sphere" /\ shapeName <> "Box" /\ shapeName <> "Cylinder")%string
  end.
Proof.
  unfold spawnShapes. cbn [find_shape].
  repeat case_decide; subst; try done; split; auto.
Qed.

(** X21. [spawnBody] never throws, because the table of shapes
    holds handled kinds only; for a name that is not in the table it
    returns nothing and leaves the state as it is. *)
Theorem spawnBody_never_throws (shapeName : string) (position0 : Vec3.t) random
    (friction0 restitution0 : R) s :
  (exists result,
     spawnBody shapeName position0 random friction0 restitution0 s = Normal result) /\
  ((shapeName <> "Sphere" /\ shapeName <> "Box" /\ shapeName <> "Cylinder")%string ->
   spawnBody shapeName position0 random friction0 restitution0 s = Normal (s, None)).
Proof.
  pose proof (find_shape_known shapeName) as Hfind. unfold spawnBody.
  destruct (find_shape shapeName spawnShapes) as [type|].
  - destruct Hfind as [Hc Hname]. split.
    + destruct type; try done; cbn [spawn_kind]; by eexists.
    + intros (H1 & H2 & H3). by destruct Hname as [?|[?|?]].
  - split; [by eexists | done].
Qed.

(** X22. With [Math.random()] in [0, 1), spawning a sphere, box or
    cylinder appends one fresh body to the store and to the end of the
    list and returns it.  The body is at the given position with the given
    slider values, has a mesh, a positive mass and a non-zero inverse
    mass, positive dimensions, fits in the default world, and has a shape
    that a saved scene brings back. *)
Theorem spawnBody_spawns (shapeName : string) (position0 : Vec3.t) random
    (friction0 restitution0 : R) s :
  unit_random random ->
  (shapeName = "Sphere" \/ shapeName = "Box" \/ shapeName = "Cylinder")%string ->
  exists rb,
    spawnBody shapeName position0 random friction0 restitution0 s =
      Normal (mkState (heap s ++ [rb]) (addBody (length (heap s)) (world s)),
              Some (length (heap s))) /\
    position rb = position0 /\ velocity rb = Vec3.zero /\
    friction rb = friction0 /\ restitution rb = restitution0 /\
    is_Some (mesh rb) /\
    mass rb > 0 /\ mass_consistent rb /\ invMass rb <> 0 /\
    halfSize (shape rb) > 0 /\
    fits (mkBounds 20 20 20) rb /\
    survives_round_trip (shape rb).
Proof.
  intros Hrandom Hname.
  pose proof (Hrandom 0%nat) as H0. pose proof (Hrandom 1%nat) as H1.
  unfold spawnBody.
  destruct Hname as [-> | [-> | ->]]; cbn [find_shape spawnShapes];
    repeat (rewrite decide_True by done || rewrite decide_False by done);
    cbn [spawn_kind]; eexists; (split; [reflexivity|]);
    cbn [position velocity friction restitution mesh mass invMass shape
         set_restitution set_friction set_angularVelocity RigidBody.constructor];
    rewrite copy_id; unfold mass_consistent, fits;
    cbn [position velocity friction restitution mesh mass invMass shape
         set_restitution set_friction set_angularVelocity RigidBody.constructor
         halfSize survives_round_trip bx by_ bz];
    rewrite !decide_True by lra;
    repeat split; try done; try lra.
Qed.

Lemma spawnBody_spawns_witness :
  exists rb,
    spawnBody "Box" (Vec3.new 0 5 0) half_random (3 / 10) (35 / 100) two_falling =
      Normal (mkState (heap two_falling ++ [rb])
                (addBody (length (heap two_falling)) (world two_falling)),
              Some (length (heap two_falling))) /\
    position rb = Vec3.new 0 5 0 /\ velocity rb = Vec3.zero /\
    friction rb = 3 / 10 /\ restitution rb = 35 / 100 /\
    is_Some (mesh rb) /\
    mass rb > 0 /\ mass_consistent rb /\ invMass rb <> 0 /\
    halfSize (shape rb) > 0 /\
    fits (mkBounds 20 20 20) rb /\
    survives_round_trip (shape rb).
Proof.
  apply (spawnBody_spawns "Box" (Vec3.new 0 5 0) half_random (3 / 10) (35 / 100)
           two_falling).
  - intros i. unfold half_random. lra.
  - right. left. reflexivity.
Defined.

Lemma spawnBody_spawns_body (shapeName : string) (position0 : Vec3.t) random
    (friction0 restitution0 : R) s :
  (shapeName = "Sphere" \/ shapeName = "Box" \/ shapeName = "Cylinder")%string ->
  exists rb,
    spawnBody shapeName position0 random friction0 restitution0 s =
      Normal (mkState (heap s ++ [rb]) (addBody (length (heap s)) (world s)),
              Some (length (heap s))).
Proof.
  intros Hname. unfold spawnBody.
  destruct Hname as [-> | [-> | ->]]; cbn [find_shape spawnShapes];
    repeat (rewrite decide_True by done || rewrite decide_False by done);
    cbn [spawn_kind]; by eexists.
Qed.

Lemma alter_fresh (f : RigidBody.t -> RigidBody.t) (h : Heap) (rb : RigidBody.t) :
  alter f (length h) (h ++ [rb]) = h ++ [f rb].
Proof.
  induction h as [|x h IH]; [done|]. cbn [length app]. cbn. by rewrite IH.
Qed.

(** X23. Shooting a sphere, box or cylinder is spawning it at (0,5,0)
    and then giving the new body, and no other, the velocity (0,0,-12). *)
Theorem shoot_spawns_moving_body (shapeName : string) random (friction0 restitution0 : R) s :
  (shapeName = "Sphere" \/ shapeName = "Box" \/ shapeName = "Cylinder")%string ->
  exists rb,
    spawnBody shapeName (Vec3.new 0 5 0) random friction0 restitution0 s =
      Normal (mkState (heap s ++ [rb]) (addBody (length (heap s)) (world s)),
              Some (length (heap s))) /\
    shoot shapeName random friction0 restitution0 s =
      Normal (mkState (heap s ++ [set_velocity (Vec3.new 0 0 (-12)) rb])
                (addBody (length (heap s)) (world s))).
Proof.
  intros Hname.
  destruct (spawnBody_spawns_body shapeName (Vec3.new 0 5 0) random
              friction0 restitution0 s Hname) as (rb & Hspawn).
  exists rb. split; [done|]. unfold shoot. rewrite Hspawn.
  cbn [heap world]. by rewrite alter_fresh.
Qed.

Lemma shoot_spawns_moving_body_witness :
  exists rb,
    spawnBody "Sphere" (Vec3.new 0 5 0) half_random (3 / 10) (35 / 100) two_falling =
      Normal (mkState (heap two_falling ++ [rb])
                (addBody (length (heap two_falling)) (world two_falling)),
              Some (length (heap two_falling))) /\
    shoot "Sphere" half_random (3 / 10) (35 / 100) two_falling =
      Normal (mkState (heap two_falling ++ [set_velocity (Vec3.new 0 0 (-12)) rb])
                (addBody (length (heap two_falling)) (world two_falling))).
Proof.
  apply (shoot_spawns_moving_body "Sphere" half_random (3 / 10) (35 / 100) two_falling).
  left. reflexivity.
Defined.

End Spawning.

(** ** The simulation loop *)

(** X24. However long ago the last frame was (after a pause, say), a
    running frame advances the world by one [update] whose time step lies
    between 0 and [0.05 * timeScale], and equals the scaled elapsed time
    when that is at most 0.05; a paused frame changes nothing, not even
    [lastTime]. *)
Theorem animate_step_capped (now : R) (l : Loop) (s : PhysicsWorld.state) :
  0 <= timeScale l -> lastTime l <= now ->
  (paused l = true -> animate now l s = (l, s)) /\
  (paused l = false ->
     animate now l s =
       (mkLoop false now (timeScale l), PhysicsWorld.update (frame_dt now l) s) /\
     0 <= frame_dt now l <= 5 / 100 * timeScale l /\
     ((now - lastTime l) / 1000 <= 5 / 100 ->
      frame_dt now l = (now - lastTime l) / 1000 * timeScale l)).
Proof.
  intros Hts Hnow. unfold animate. split; intros ->; [done|].
  split; [done|]. unfold frame_dt.
  pose proof (Rmin_l (5 / 100) ((now - lastTime l) / 1000)) as Hl.
  assert (Hpos : 0 <= Rmin (5 / 100) ((now - lastTime l) / 1000)).
  { apply Rmin_glb; lra. }
  split; [split; nra|].
  intros Hsmall. by rewrite Rmin_right.
Qed.

Lemma animate_step_capped_witness :
  (paused running_loop = true ->
   animate 10000 running_loop two_falling = (running_loop, two_falling)) /\
  (paused running_loop = false ->
     animate 10000 running_loop two_falling =
       (mkLoop false 10000 (timeScale running_loop),
        PhysicsWorld.update (frame_dt 10000 running_loop) two_falling) /\
     0 <= frame_dt 10000 running_loop <= 5 / 100 * timeScale running_loop /\
     ((10000 - lastTime running_loop) / 1000 <= 5 / 100 ->
      frame_dt 10000 running_loop
      = (10000 - lastTime running_loop) / 1000 * timeScale running_loop)).
Proof.
  apply (animate_step_capped 10000 running_loop two_falling); simpl; lra.
Defined.

(** ** Invariants of the bodies *)

Section Invariants.

Import RigidBody PhysicsWorld.
Implicit Types (s : state) (dt : R) (b : RigidBody.t).

Lemma update_identity_fields dt s :
  identity_fields <$> heap (update dt s) = identity_fields <$> heap s.
Proof.
  rewrite update_stages, narrowphase_candidates. cbn [heap].
  by rewrite collide_all_identity_fields, pre_narrowphase_identity_fields.
Qed.

Lemma mass_consistent_identity b b' :
  identity_fields b' = identity_fields b -> mass_consistent b -> mass_consistent b'.
Proof.
  unfold identity_fields, mass_consistent. by intros [= _ -> -> _ _].
Qed.

Lemma import_record_mass_consistent (obj : SceneRecord) b :
  import_record obj = Built b -> mass_consistent b.
Proof.
  unfold import_record. repeat case_decide; try done;
    destruct (rec_size obj); try done;
    try (destruct (js_or (rec_height obj) (num 2)); try done);
    by intros [= <-].
Qed.

(** X25. [invMass] stays tied to [mass] ([1 / mass] for a positive
    mass, 0 otherwise): every body that the constructor, [spawnBody] or
    the import handler builds has the property, and [update] keeps it for
    every object of the store, as it keeps the number of objects. *)
Theorem mass_consistent_invariant :
  (forall p shp m me, mass_consistent (RigidBody.constructor p shp m me)) /\
  (forall obj b, import_record obj = Built b -> mass_consistent b) /\
  (forall dt s, Forall mass_consistent (heap s) ->
     Forall mass_consistent (heap (update dt s)) /\
     length (heap (update dt s)) = length (heap s)).
Proof.
  split; [by intros|]. split; [apply import_record_mass_consistent|].
  intros dt s Hall. pose proof (update_identity_fields dt s) as Hid. split.
  - apply Forall_lookup. intros i b' Hb'.
    assert (Hi : identity_fields <$> heap s !! i = Some (identity_fields b')).
    { by rewrite <- list_lookup_fmap, <- Hid, list_lookup_fmap, Hb'. }
    destruct (heap s !! i) as [b|] eqn:Hb; [|done].
    injection Hi as _ Hm Him _ _.
    pose proof (Forall_lookup_1 _ _ _ _ Hall Hb) as Hc.
    unfold mass_consistent in *. by rewrite <- Hm, <- Him.
  - rewrite <- (length_fmap identity_fields), Hid. apply length_fmap.
Qed.

Lemma sync_mesh_position dt b (m : Mesh) :
  mesh b = Some m ->
  exists m', mesh (sync_mesh dt b) = Some m' /\ mesh_position m' = position b /\
             mesh_color m' = mesh_color m.
Proof.
  intros Hm. unfold sync_mesh. rewrite Hm. eexists. split; [reflexivity|].
  cbn. by destruct (position b).
Qed.

Lemma ground_mesh (hs : R) b : mesh (ground hs b) = mesh b.
Proof. unfold ground. case_decide; reflexivity. Qed.

Lemma wall_mesh (bs : Bounds) (hs : R) axis b : mesh (wall bs hs axis b) = mesh b.
Proof. unfold wall. repeat case_decide; reflexivity. Qed.

Lemma ceiling_mesh (bs : Bounds) (hs : R) b : mesh (ceiling bs hs b) = mesh b.
Proof. unfold ceiling. case_decide; reflexivity. Qed.

Lemma resolve_bounds_mesh (bs : Bounds) b : mesh (resolve_bounds bs b) = mesh b.
Proof.
  unfold resolve_bounds. cbv zeta.
  by rewrite ceiling_mesh, !wall_mesh, ground_mesh.
Qed.

(** X26. The mesh of a moving body is placed by [integrate] alone: after
    the integration and boundary loops of [update] the mesh sits at the
    position that integration computed; the boundary step moves the body
    without moving its mesh. *)
Theorem mesh_follows_integration_only (g : Vec3.t) (bs : Bounds) dt b (m : Mesh) :
  mesh b = Some m -> invMass b <> 0 ->
  exists m',
    mesh (resolve_bounds bs (apply_and_integrate g dt b)) = Some m' /\
    mesh_position m' = position (apply_and_integrate g dt b) /\
    mesh_color m' = mesh_color m.
Proof.
  intros Hm H0. rewrite resolve_bounds_mesh. unfold apply_and_integrate.
  set (b1 := applyForce (Vec3.mul g (mass b)) b).
  assert (H1 : invMass b1 <> 0) by done.
  rewrite integrate_position by done.
  unfold integrate. rewrite decide_False by done.
  cbn [set_force mesh].
  edestruct sync_mesh_position as (m' & Hm' & Hp & Hcol); [|exists m'; split; [exact Hm'|]].
  { cbn [mesh set_torque set_angularVelocity set_position set_velocity]. exact Hm. }
  split; [|done]. rewrite Hp. reflexivity.
Qed.

Lemma mesh_follows_integration_only_witness :
  exists m',
    mesh (resolve_bounds (mkBounds 20 20 20)
            (apply_and_integrate (Vec3.new 0 (-10) 0) (1 / 64) orange_box)) = Some m' /\
    mesh_position m'
    = position (apply_and_integrate (Vec3.new 0 (-10) 0) (1 / 64) orange_box) /\
    mesh_color m' = mesh_color (mkMesh (Vec3.new 0 5 0) [] 16754176).
Proof.
  apply (mesh_follows_integration_only (Vec3.new 0 (-10) 0) (mkBounds 20 20 20)
           (1 / 64) orange_box (mkMesh (Vec3.new 0 5 0) [] 16754176)).
  - reflexivity.
  - simpl. rewrite decide_True by lra. lra.
Defined.

End Invariants.

(** ** Rotation *)

Section Spin.

Import RigidBody PhysicsWorld.
Implicit Types (h : Heap) (s : state) (dt : R) (b : RigidBody.t) (r : ref).

Lemma integrate_spin dt b : no_torque b -> spin_fields (integrate dt b) = spin_fields b.
Proof.
  unfold no_torque. intros Ht. unfold integrate. case_decide; [done|].
  unfold spin_fields, sync_mesh.
  destruct (mesh _);
    cbn [angularVelocity torque orientation inertia invInertia set_force set_mesh
         set_torque set_angularVelocity set_position set_velocity];
    rewrite Ht; repeat f_equal;
    destruct (angularVelocity b); apply vec3_eq; vec_unfold; ring.
Qed.

Lemma apply_and_integrate_spin g dt b :
  no_torque b -> spin_fields (apply_and_integrate g dt b) = spin_fields b.
Proof. intros Ht. unfold apply_and_integrate. by rewrite integrate_spin. Qed.

Lemma ground_spin (hs : R) b : spin_fields (ground hs b) = spin_fields b.
Proof. unfold ground. case_decide; reflexivity. Qed.

Lemma wall_spin (bs : Bounds) (hs : R) axis b :
  spin_fields (wall bs hs axis b) = spin_fields b.
Proof. unfold wall. repeat case_decide; reflexivity. Qed.

Lemma ceiling_spin (bs : Bounds) (hs : R) b : spin_fields (ceiling bs hs b) = spin_fields b.
Proof. unfold ceiling. case_decide; reflexivity. Qed.

Lemma resolve_bounds_spin (bs : Bounds) b :
  spin_fields (resolve_bounds bs b) = spin_fields b.
Proof.
  unfold resolve_bounds. cbv zeta.
  by rewrite ceiling_spin, !wall_spin, ground_spin.
Qed.

(** Stores with the same rotational states agree on pending torques. *)
Lemma spin_no_torque h h' :
  spin_fields <$> h' = spin_fields <$> h -> Forall no_torque h -> Forall no_torque h'.
Proof.
  intros Heq Hall. apply Forall_lookup. intros i x' Hx'.
  assert (Hi : spin_fields <$> h !! i = Some (spin_fields x')).
  { by rewrite <- list_lookup_fmap, <- Heq, list_lookup_fmap, Hx'. }
  destruct (h !! i) as [x|] eqn:Hx; [|done].
  pose proof (Forall_lookup_1 _ _ _ _ Hall Hx) as Ht.
  unfold no_torque, spin_fields in *. injection Hi as _ Htq _ _ _. congruence.
Qed.

Lemma spin_alter (f : RigidBody.t -> RigidBody.t) r h :
  (forall x, no_torque x -> spin_fields (f x) = spin_fields x) ->
  Forall no_torque h ->
  spin_fields <$> alter f r h = spin_fields <$> h.
Proof.
  intros Hf Hall. apply list_eq. intros i. rewrite !list_lookup_fmap.
  destruct (decide (r = i)) as [->|Hne].
  - rewrite list_lookup_alter_eq. destruct (h !! i) as [x|] eqn:Hx; simpl; [|done].
    rewrite Hf; [done|]. by eapply Forall_lookup_1.
  - by rewrite list_lookup_alter_ne.
Qed.

Lemma for_bodies_spin (f : RigidBody.t -> RigidBody.t) (l : list ref) h :
  (forall x, no_torque x -> spin_fields (f x) = spin_fields x) ->
  Forall no_torque h ->
  spin_fields <$> for_bodies f l h = spin_fields <$> h.
Proof.
  intros Hf. unfold for_bodies. revert h.
  induction l as [|b l IH]; intros h Hall; [done|].
  cbn [fold_left]. pose proof (spin_alter f b h Hf Hall) as Hstep.
  rewrite IH; [done|]. by eapply spin_no_torque.
Qed.

Lemma spin_insert r h (A A' : RigidBody.t) :
  h !! r = Some A -> spin_fields A' = spin_fields A ->
  spin_fields <$> <[r := A']> h = spin_fields <$> h.
Proof.
  intros Hr HA. rewrite list_fmap_insert. apply list_insert_id.
  by rewrite list_lookup_fmap, Hr, HA.
Qed.

Lemma assign_spin_a (a c : ref) rhs h :
  (forall A B, spin_fields (rhs A B) = spin_fields A) ->
  spin_fields <$> assign a a c rhs h = spin_fields <$> h.
Proof.
  intros Hrhs. unfold assign.
  destruct (h !! a) as [A|] eqn:Ha; [|done].
  destruct (h !! c) as [B|] eqn:Hb; [|done].
  by apply (spin_insert a h A).
Qed.

Lemma assign_spin_b (a c : ref) rhs h :
  (forall A B, spin_fields (rhs A B) = spin_fields B) ->
  spin_fields <$> assign c a c rhs h = spin_fields <$> h.
Proof.
  intros Hrhs. unfold assign.
  destruct (h !! a) as [A|] eqn:Ha; [|done].
  destruct (h !! c) as [B|] eqn:Hb; [|done].
  by apply (spin_insert c h B).
Qed.

Lemma respond_spin (a c : ref) norm correction (A B : RigidBody.t) h :
  spin_fields <$> respond a c norm correction A B h = spin_fields <$> h.
Proof.
  unfold respond.
  rewrite assign_spin_b by done. rewrite assign_spin_a by done.
  rewrite assign_spin_b by done. by rewrite assign_spin_a.
Qed.

Lemma collide_spin (a c : ref) h (n : Z) :
  spin_fields <$> (collide a c (h, n)).1 = spin_fields <$> h.
Proof.
  destruct (hit h a c) eqn:Hhit.
  - destruct (collide_hit a c h n Hhit) as (A & B & norm & corr & _ & _ & _ & ->).
    apply respond_spin.
  - by rewrite collide_miss.
Qed.

Lemma collide_all_spin (pairs : list (ref * ref)) h (n : Z) :
  spin_fields <$> (collide_all pairs (h, n)).1 = spin_fields <$> h.
Proof.
  revert h n. induction pairs as [|[a c] pairs IH]; intros h n; [done|].
  unfold collide_all in *. cbn [fold_left fst snd].
  destruct (collide a c (h, n)) as [h' n'] eqn:Hc.
  rewrite IH. change h' with (h', n').1. rewrite <- Hc. apply collide_spin.
Qed.

(** X27. Rotation is decoupled from everything else: on a store without
    pending torques (which is how the constructor builds every body; the
    program never calls [applyTorque]), [update] leaves the angular
    velocity, the torque, the orientation and the inertia of every object
    as they are.  Gravity, the faces of the world and collisions never
    change a spin, and no step damps it. *)
Theorem update_keeps_spin dt s :
  Forall no_torque (heap s) ->
  spin_fields <$> heap (update dt s) = spin_fields <$> heap s /\
  Forall no_torque (heap (update dt s)).
Proof.
  intros Hall.
  assert (Heq : spin_fields <$> heap (update dt s) = spin_fields <$> heap s).
  { rewrite update_stages, narrowphase_candidates. cbn [heap].
    rewrite collide_all_spin. unfold pre_narrowphase. cbv zeta.
    rewrite for_bodies_spin.
    - apply for_bodies_spin; [|done]. intros x Hx. by apply apply_and_integrate_spin.
    - intros x _. apply resolve_bounds_spin.
    - eapply spin_no_torque; [|exact Hall].
      apply for_bodies_spin; [|done]. intros x Hx. by apply apply_and_integrate_spin. }
  split; [done|]. by eapply spin_no_torque.
Qed.

Lemma update_keeps_spin_witness :
  spin_fields <$> heap (update (1 / 64) two_close) = spin_fields <$> heap two_close /\
  Forall no_torque (heap (update (1 / 64) two_close)).
Proof.
  apply (update_keeps_spin (1 / 64) two_close).
  repeat constructor.
Defined.

(** X28. A pending torque is spent by the next integration of a moving
    body: it changes the angular velocity by [torque * dt * invInertia]
    and is reset, while a body that cannot move keeps it. *)
Theorem integrate_spends_torque dt b (tq : Vec3.t) :
  no_torque b ->
  (invMass b <> 0 ->
   angularVelocity (integrate dt (applyTorque tq b)) =
     Vec3.add (angularVelocity b) (Vec3.mul tq (dt * invInertia b)) /\
   torque (integrate dt (applyTorque tq b)) = Vec3.zero) /\
  (invMass b = 0 ->
   integrate dt (applyTorque tq b) = applyTorque tq b /\
   torque (integrate dt (applyTorque tq b)) = tq).
Proof.
  unfold no_torque. intros Ht. split; intros H0; unfold integrate, applyTorque.
  - rewrite decide_False by done. unfold sync_mesh.
    destruct (mesh _);
      cbn [angularVelocity torque invInertia set_force set_mesh set_torque
           set_angularVelocity set_position set_velocity];
      rewrite Ht; split; try done; repeat f_equal;
      destruct tq; apply vec3_eq; vec_unfold; ring.
  - rewrite decide_True by done. split; [done|].
    cbn [torque set_torque]. rewrite Ht.
    destruct tq; apply vec3_eq; vec_unfold; ring.
Qed.

Lemma integrate_spends_torque_witness :
  (invMass orange_box <> 0 ->
   angularVelocity (integrate (1 / 64) (applyTorque (Vec3.new 0 1 0) orange_box)) =
     Vec3.add (angularVelocity orange_box)
       (Vec3.mul (Vec3.new 0 1 0) (1 / 64 * invInertia orange_box)) /\
   torque (integrate (1 / 64) (applyTorque (Vec3.new 0 1 0) orange_box)) = Vec3.zero) /\
  (invMass orange_box = 0 ->
   integrate (1 / 64) (applyTorque (Vec3.new 0 1 0) orange_box)
   = applyTorque (Vec3.new 0 1 0) orange_box /\
   torque (integrate (1 / 64) (applyTorque (Vec3.new 0 1 0) orange_box))
   = Vec3.new 0 1 0).
Proof.
  apply (integrate_spends_torque (1 / 64) orange_box (Vec3.new 0 1 0)).
  reflexivity.
Defined.

End Spin.

(** ** Bodies taken out of the list *)

Section Frozen.

Import RigidBody PhysicsWorld.
Implicit Types (h : Heap) (s : state) (dt : R) (b r : ref).

Lemma update_lookup_unlisted dt s r :
  r ∉ bodies (world s) -> heap (update dt s) !! r = heap s !! r.
Proof.
  intros Hr. rewrite update_stages, narrowphase_candidates. cbn [heap].
  rewrite collide_all_lookup_other; [by apply pre_narrowphase_lookup_other|].
  intros a c Hac. apply candidates_elem in Hac as (key & cell & Hcell & Ha & Hc).
  split; intros ->; apply Hr; by eapply broadphase_refs.
Qed.

Lemma remove_first_NoDup b (l : list ref) : NoDup l -> b ∉ remove_first b l.
Proof.
  induction 1 as [|x l Hx Hnd IH]; [apply not_elem_of_nil|].
  cbn [remove_first]. case_decide; [by subst|].
  apply not_elem_of_cons. by split.
Qed.

(** X29. A body taken out of the list is frozen: after [removeBody] (for a
    body listed once) and after a reset, a call of [update] leaves the
    object as it was, and after a reset it leaves the whole store as it
    was and counts no collision. *)
Theorem removed_bodies_are_frozen dt s b :
  NoDup (bodies (world s)) ->
  heap (update dt (mkState (heap s) (removeBody b (world s)))) !! b = heap s !! b /\
  heap (update dt (reset_scene s)) = heap s /\
  collisionCount (world (update dt (reset_scene s))) = 0%Z.
Proof.
  intros Hnd. split; [|done].
  rewrite update_lookup_unlisted; [done|].
  cbn [world removeBody bodies]. by apply remove_first_NoDup.
Qed.

Lemma removed_bodies_are_frozen_witness :
  heap (update (1 / 64) (mkState (heap two_close) (removeBody 1%nat (world two_close))))
    !! 1%nat = heap two_close !! 1%nat /\
  heap (update (1 / 64) (reset_scene two_close)) = heap two_close /\
  collisionCount (world (update (1 / 64) (reset_scene two_close))) = 0%Z.
Proof.
  apply (removed_bodies_are_frozen (1 / 64) two_close 1%nat).
  change (NoDup [0%nat; 1%nat]). apply NoDup_cons. split.
  - intros H%list_elem_of_singleton. lia.
  - apply NoDup_singleton.
Defined.

End Frozen.
